(** * blueblue: a BLE scanner with a device registry and a beacon list

    Shallow embedding of the two programs of the repository:
    - [Devices]: the device dashboard (main.go), a map of the latest
      sighting per address, listed by descending RSSI;
    - [Beacons]: the beacon variant, which decodes the manufacturer data of
      Radioland beacons and serves the recent sightings as JSON.

    [Go] models the parts of the Go language and of its standard library
    that the programs rely on: run-time panics, byte slices with a length
    and a capacity, encoding/hex, fmt's %x verb, strconv.Atoi, the int64
    arithmetic of time.Duration, range over a string and sort.SliceStable. *)

From Stdlib Require Import ZArith NArith List Lia Bool.
From Stdlib.Strings Require Import String Ascii Byte.
From stdpp Require Import gmap strings list fin_maps sorting.

Local Open Scope Z_scope.

(* ===================================================================== *)
(** ** The Go side: panics, slices, library functions                     *)
(* ===================================================================== *)

Module Go.

(** A run-time panic of the Go runtime. *)
Inductive panic : Type :=
  | IndexOutOfRange
  | SliceBoundsOutOfRange.

(** The outcome of evaluating an expression or a call: a value, or a
    panic that unwinds the goroutine. *)
Inductive outcome (A : Type) : Type :=
  | Ok (a : A)
  | Panic (p : panic).
Arguments Ok {A} a.
Arguments Panic {A} p.

#[export] Instance outcome_ret : MRet outcome := fun A a => Ok a.
#[export] Instance outcome_bind : MBind outcome := fun A B f m =>
  match m with
  | Ok a => f a
  | Panic p => Panic p
  end.

Definition returns {A} (m : outcome A) : Prop := exists a, m = Ok a.
Definition panics {A} (m : outcome A) : Prop := exists p, m = Panic p.

(** *** Byte slices

    A []byte value sees [slen] elements of its backing array; [backing]
    is the array from the slice's first element on, so that its length is
    the capacity. *)
Record slice : Type := mkSlice {
  backing : list byte;
  slen : nat
}.

Definition cap (s : slice) : nat := length (backing s).

Definition wf_slice (s : slice) : Prop := (slen s <= cap s)%nat.

(** The elements a slice holds, [s[0] .. s[len(s)-1]]. *)
Definition elems (s : slice) : list byte := take (slen s) (backing s).

(** A slice that holds exactly the given bytes (len = cap). *)
Definition of_bytes (l : list byte) : slice := mkSlice l (length l).

(** [s[i]]: the index is checked against the length. *)
Definition index (s : slice) (i : Z) : outcome byte :=
  if decide (0 <= i < Z.of_nat (slen s)) then
    match backing s !! Z.to_nat i with
    | Some b => Ok b
    | None => Panic IndexOutOfRange
    end
  else Panic IndexOutOfRange.

(** [s[lo:hi]]: for a slice operand the bounds are checked against the
    capacity, [0 <= lo <= hi <= cap(s)]. *)
Definition reslice (s : slice) (lo hi : Z) : outcome slice :=
  if decide (0 <= lo /\ lo <= hi /\ hi <= Z.of_nat (cap s)) then
    Ok (mkSlice (drop (Z.to_nat lo) (backing s)) (Z.to_nat (hi - lo)))
  else Panic SliceBoundsOutOfRange.

(** *** encoding/hex and fmt *)

Definition hextable : string := "0123456789abcdef".

(** [hextable[n]], for [n < 16]. *)
Definition hexdigit (n : N) : ascii :=
  match String.get (N.to_nat n) hextable with
  | Some c => c
  | None => "0"%char
  end.

(** hex.EncodeToString: two digits per byte, [hextable[v>>4]] and
    [hextable[v&0x0f]]. *)
Fixpoint EncodeToString (src : list byte) : string :=
  match src with
  | [] => EmptyString
  | v :: rest =>
      String (hexdigit (N.shiftr (Byte.to_N v) 4))
        (String (hexdigit (N.land (Byte.to_N v) 15)) (EncodeToString rest))
  end.

(** fmt's integer formatting in base 16: digits are produced from the least
    significant one while [u >= 16], then the leading digit; no padding. *)
Fixpoint fmtInteger16 (fuel : nat) (u : N) (buf : string) : string :=
  match fuel with
  | O => buf
  | S fuel' =>
      if (16 <=? u)%N
      then fmtInteger16 fuel' (N.shiftr u 4) (String (hexdigit (N.land u 15)) buf)
      else String (hexdigit u) buf
  end.

(** [fmt.Sprintf("%x", b)] for a byte [b]. *)
Definition Sprintf_x (b : byte) : string :=
  fmtInteger16 64 (Byte.to_N b) EmptyString.

(** *** time

    An instant is a number of nanoseconds on the time line; a Duration is
    an int64 count of nanoseconds, and its arithmetic wraps around. *)
Definition Time : Type := Z.
Definition Duration : Type := Z.

Definition wrap64 (z : Z) : Z := (z + 2 ^ 63) mod 2 ^ 64 - 2 ^ 63.

(** [a * b] on int64 operands. *)
Definition mul64 (a b : Z) : Z := wrap64 (a * b).

Definition Second : Duration := 1000000000.

Definition Time_Add (t : Time) (d : Duration) : Time := t + d.
Definition Time_Before (t u : Time) : bool := t <? u.

(** The clock: the successive readings that time.Now() returns, the k-th
    call reading [clk k]. *)
Definition clock : Type := nat -> Time.

(** *** strconv.Atoi

    An optional sign followed by one or more decimal digits; the value is
    returned with a nil error when it fits an int (64 bits). On a syntax
    error the value is 0, on a range error it is the nearest bound. *)
Inductive NumError : Type :=
  | ErrSyntax
  | ErrRange.

Definition digit_of (c : ascii) : option Z :=
  let n := Z.of_N (N_of_ascii c) in
  if (48 <=? n) && (n <=? 57) then Some (n - 48) else None.

Fixpoint parse_digits (s : string) (acc : Z) : option Z :=
  match s with
  | EmptyString => Some acc
  | String c rest =>
      match digit_of c with
      | Some d => parse_digits rest (acc * 10 + d)
      | None => None
      end
  end.

Definition Atoi (s : string) : Z * option NumError :=
  let '(neg, body) :=
    match s with
    | String "-"%char rest => (true, rest)
    | String "+"%char rest => (false, rest)
    | _ => (false, s)
    end in
  match body with
  | EmptyString => (0, Some ErrSyntax)
  | _ =>
      match parse_digits body 0 with
      | None => (0, Some ErrSyntax)
      | Some n =>
          if neg
          then (if n <=? 2 ^ 63 then (- n, None) else (- 2 ^ 63, Some ErrRange))
          else (if n <? 2 ^ 63 then (n, None) else (2 ^ 63 - 1, Some ErrRange))
      end
  end.

(** *** range over a string

    A Go string is a sequence of bytes; [for i := range s] visits the byte
    index at which each UTF-8 encoded rune starts. [rune_width s] is the
    number of bytes the rune at the head of [s] takes: 1 for an ASCII byte
    and for an invalid encoding. *)
Definition is_cont (c : ascii) : bool :=
  let n := N_of_ascii c in ((128 <=? n) && (n <=? 191))%N.

Definition rune_width (s : string) : nat :=
  match s with
  | EmptyString => 1
  | String c0 r =>
      let b0 := N_of_ascii c0 in
      if (b0 <? 128)%N then 1
      else if ((192 <=? b0) && (b0 <? 224))%N then
        match r with
        | String c1 _ =>
            let v := N.lor (N.shiftl (N.land b0 31) 6) (N.land (N_of_ascii c1) 63) in
            if is_cont c1 && (127 <? v)%N then 2 else 1
        | _ => 1
        end
      else if ((224 <=? b0) && (b0 <? 240))%N then
        match r with
        | String c1 (String c2 _) =>
            let v := N.lor (N.shiftl (N.land b0 15) 12)
                       (N.lor (N.shiftl (N.land (N_of_ascii c1) 63) 6)
                              (N.land (N_of_ascii c2) 63)) in
            if is_cont c1 && is_cont c2 && (2047 <? v)%N
               && negb ((55296 <=? v) && (v <=? 57343))%N
            then 3 else 1
        | _ => 1
        end
      else if ((240 <=? b0) && (b0 <? 248))%N then
        match r with
        | String c1 (String c2 (String c3 _)) =>
            let v := N.lor (N.shiftl (N.land b0 7) 18)
                       (N.lor (N.shiftl (N.land (N_of_ascii c1) 63) 12)
                          (N.lor (N.shiftl (N.land (N_of_ascii c2) 63) 6)
                                 (N.land (N_of_ascii c3) 63))) in
            if is_cont c1 && is_cont c2 && is_cont c3
               && (65535 <? v)%N && (v <=? 1114111)%N
            then 4 else 1
        | _ => 1
        end
      else 1
  end.

(** The indices that [for i := range s] yields, for the suffix [s] that
    starts at byte index [i], of which the first [skip] bytes belong to a
    rune already visited. *)
Fixpoint rune_starts (s : string) (i : Z) (skip : nat) : list Z :=
  match s with
  | EmptyString => []
  | String _ rest =>
      match skip with
      | S k => rune_starts rest (i + 1) k
      | O => i :: rune_starts rest (i + 1) (rune_width s - 1)
      end
  end.

Definition range_string (s : string) : list Z := rune_starts s 0 0.

(** [s[lo:hi]] on a string: the bounds are checked against the length. *)
Definition substr (s : string) (lo hi : Z) : outcome string :=
  if decide (0 <= lo /\ lo <= hi /\ hi <= Z.of_nat (String.length s)) then
    Ok (substring (Z.to_nat lo) (Z.to_nat (hi - lo)) s)
  else Panic SliceBoundsOutOfRange.

(** *** sort.SliceStable

    The library sorts the slice in place and keeps the original order of
    the elements that [less] does not separate. It is modelled by a stable
    insertion sort: an element moves in front of the ones sorted so far
    until it meets one that is strictly less. *)
Fixpoint insert_stable {A} (less : A -> A -> bool) (x : A) (l : list A) : list A :=
  match l with
  | [] => [x]
  | y :: l' => if less y x then y :: insert_stable less x l' else x :: y :: l'
  end.

Definition SliceStable {A} (less : A -> A -> bool) (data : list A) : list A :=
  foldr (insert_stable less) [] data.

End Go.

(* ===================================================================== *)
(** ** The BLE library's view of an advertisement                         *)
(* ===================================================================== *)

Module ble.
Import Go.

(** ble.ServiceData: a service UUID (a byte slice) and its data. *)
Record ServiceData : Type := mkServiceData {
  UUID : slice;
  Data : slice
}.

(** The methods of the ble.Advertisement interface that the programs call. *)
Module Adv.
Record t : Type := mk {
  Addr : string;
  LocalName : string;
  RSSI : Z;
  ManufacturerData : slice;
  ServiceData : list ServiceData;
  LEAdvertisingReportRaw : slice;
  ScanResponseRaw : slice
}.
End Adv.

End ble.

(* ===================================================================== *)
(** ** The beacon program                                                 *)
(* ===================================================================== *)

Module Beacons.
Import Go.

(** Beacon represents a BLE beacon *)
Record Beacon : Type := mkBeacon {
  MAC : string;
  Detected : Time;
  Name : string;
  UUID : string;
  Major : string;
  Minor : string;
  RSSI : Z;
  ManufacturerData : string;
  ServiceUUID : string;
  ServiceData : string;
  Battery : string;
  Temperature : string;
  BaseStation : string
}.

(** get UUID: byte 4 - 20 (16 bytes) *)
Definition getUUID (md : slice) : outcome string :=
  s ← reslice md 4 20; mret (EncodeToString (elems s)).

(** byte 21 - 23 (2 bytes) *)
Definition getMajor (md : slice) : outcome string :=
  s ← reslice md 21 23; mret (EncodeToString (elems s)).

(** byte 24 - 26 (2 bytes) *)
Definition getMinor (md : slice) : outcome string :=
  s ← reslice md 24 26; mret (EncodeToString (elems s)).

(** last byte *)
Definition getBatteryLevel (md : slice) : outcome string :=
  b ← index md (Z.of_nat (slen md) - 1); mret (Sprintf_x b).

(** The condition of advHandler, [s.UUID[0] == 0x03 && s.UUID[1] == 0x18]
    (the Radioland beacon service UUID): [&&] evaluates its right operand
    only when the left one is true. *)
Definition isRadioland (s : ble.ServiceData) : outcome bool :=
  b0 ← index (ble.UUID s) 0;
  if Byte.eqb b0 x03
  then b1 ← index (ble.UUID s) 1; mret (Byte.eqb b1 x18)
  else mret false.

Section Program.

(** The readings of time.Now(), and the scan duration (the -d flag) in
    units of the controller's time. *)
Variable clk : clock.
Variable dur : nat.

(** The record that advHandler builds for the service data entry [s] of
    the advertisement [a]; the fields are evaluated in the order of the
    composite literal. *)
Definition mkSighting (a : ble.Adv.t) (s : ble.ServiceData) (now : Time)
  : outcome Beacon :=
  let md := ble.Adv.ManufacturerData a in
  uuid ← getUUID md;
  major ← getMajor md;
  minor ← getMinor md;
  batt ← getBatteryLevel md;
  mret {| MAC := ble.Adv.Addr a;
          Detected := now;
          Name := ble.Adv.LocalName a;
          UUID := uuid;
          Major := major;
          Minor := minor;
          RSSI := ble.Adv.RSSI a;
          ManufacturerData := EncodeToString (elems md);
          ServiceUUID := EncodeToString (elems (ble.UUID s));
          ServiceData := EncodeToString (elems (ble.Data s));
          Battery := batt;
          Temperature := "0";
          BaseStation := "Pi4" |}.

(** The loop of advHandler over the service data; the state is the global
    [beacons] and the number [k] of clock readings taken so far. *)
Fixpoint advHandler_range (a : ble.Adv.t) (svcdata : list ble.ServiceData)
    (beacons : list Beacon) (k : nat) : outcome (list Beacon * nat) :=
  match svcdata with
  | [] => mret (beacons, k)
  | s :: rest =>
      c ← isRadioland s;
      if (c : bool) then
        beacon ← mkSighting a s (clk k);
        advHandler_range a rest (beacons ++ [beacon]) (S k)
      else advHandler_range a rest beacons k
  end.

(** handle the advertisement *)
Definition advHandler (a : ble.Adv.t) (beacons : list Beacon) (k : nat)
  : outcome (list Beacon * nat) :=
  if decide (0 < length (ble.Adv.ServiceData a))%nat
  then advHandler_range a (ble.Adv.ServiceData a) beacons k
  else mret (beacons, k).

Fixpoint filterByDate_range (beacons : list Beacon) (sec : Z)
    (results : list Beacon) (k : nat) : list Beacon * nat :=
  match beacons with
  | [] => (results, k)
  | beacon :: rest =>
      let t := Time_Add (clk k) (mul64 (mul64 (-1) sec) Second) in
      if Time_Before t (Detected beacon)
      then filterByDate_range rest sec (results ++ [beacon]) (S k)
      else filterByDate_range rest sec results (S k)
  end.

Definition filterByDate (beacons : list Beacon) (sec : Z) (k : nat)
  : list Beacon * nat :=
  filterByDate_range beacons sec [] k.

(** What a handler does to its http.ResponseWriter, in order. *)
Inductive payload : Type :=
  | Text (s : string)
  | ErrorPage (e : NumError)
  | BeaconsJSON (l : list Beacon).

Inductive call : Type :=
  | WriteHeader (code : Z)
  | SetHeader (key value : string)
  | Write (p : payload).

(** show a JSON of beacons. [lastParam] is [r.URL.Query().Get("last")],
    the empty string when the parameter is absent. Executing the error
    template writes the rendered error to the response; marshalling a list
    of beacons does not fail. *)
Definition beaconsJSON (lastParam : string) (beacons : list Beacon) (k : nat)
  : list call * nat :=
  let lastParam := if String.eqb lastParam "" then "60"%string else lastParam in
  let '(last, err) := Atoi lastParam in
  let w1 := match err with
            | Some e => [Write (ErrorPage e)]
            | None => []
            end in
  let '(filtered, k') := filterByDate beacons last k in
  (w1 ++ [SetHeader "Content-Type" "application/json"; Write (BeaconsJSON filtered)],
   k').

(** *** The scan controller

    [stop] is the global flag; the goroutines started by [go scan()] run
    beside the request handlers. A scan session is bounded by a context
    with a timeout, whose cancel function the BLE library calls when the
    process receives SIGINT or SIGTERM. *)
Record context : Type := mkCtx {
  deadline : nat;     (* time left before the timeout *)
  canceled : bool
}.

Inductive ctxErr : Type :=
  | DeadlineExceeded
  | Canceled.

(** [ctx.Err()]: nil while the session may go on. *)
Definition ctx_Err (c : context) : option ctxErr :=
  if canceled c then Some Canceled
  else if (deadline c =? 0)%nat then Some DeadlineExceeded
  else None.

(** Where a scan goroutine stands in [scan]. *)
Inductive pc : Type :=
  | AtEntry                  (* about to run [stop = false] *)
  | AtLoopTest               (* about to test [!stop] *)
  | InScan (ctx : context)   (* inside ble.Scan, until the context is done *)
  | AfterLoop                (* about to run [stop = true] *)
  | Returned.

Record World : Type := mkWorld {
  beacons : list Beacon;
  stop : bool;
  ticks : nat;               (* clock readings taken so far *)
  scans : list pc;           (* the scan goroutines *)
  exited : bool              (* the process has been terminated by logger.Fatal *)
}.

(** The initial state of the program: [var stop bool = true]. *)
Definition init : World := mkWorld [] true 0 [] false.

(** handler to start scanning *)
Definition startScan (w : World) : list call * World :=
  if negb (stop w) then
    ([WriteHeader 409; Write (Text "Already scanning.")], w)
  else
    ([Write (Text "Request to start scanning accepted.")],
     mkWorld (beacons w) (stop w) (ticks w) (scans w ++ [AtEntry]) (exited w)).

(** handler to stop scanning *)
Definition stopScan (w : World) : list call * World :=
  if stop w then
    ([WriteHeader 409; Write (Text "Already stopped.")], w)
  else
    ([Write (Text "Request to stop scanning accepted.")],
     mkWorld (beacons w) true (ticks w) (scans w) (exited w)).

(** One step of a scan goroutine: the next program point and the value of
    [stop] after it. A goroutine inside ble.Scan stays there until its
    context is done; [check] then logs the context's error and the loop
    goes on to its test. *)
Definition scan_step (p : pc) (stop : bool) : pc * bool :=
  match p with
  | AtEntry => (AtLoopTest, false)
  | AtLoopTest =>
      if negb stop then (InScan (mkCtx dur false), stop) else (AfterLoop, stop)
  | InScan ctx =>
      match ctx_Err ctx with
      | Some _ => (AtLoopTest, stop)
      | None => (InScan ctx, stop)
      end
  | AfterLoop => (Returned, true)
  | Returned => (Returned, stop)
  end.

(** The passing of one unit of time, and the delivery of a signal, seen
    from a goroutine. *)
Definition tick_pc (p : pc) : pc :=
  match p with
  | InScan (mkCtx d false) => InScan (mkCtx (pred d) false)
  | _ => p
  end.

Definition signal_pc (p : pc) : pc :=
  match p with
  | InScan (mkCtx (S d) false) => InScan (mkCtx (S d) true)
  | _ => p
  end.

Inductive event : Type :=
  | Tick                         (* one unit of time passes *)
  | Signal                       (* SIGINT or SIGTERM *)
  | Run (i : nat)                (* the i-th scan goroutine takes a step *)
  | RadioError (i : nat)         (* ble.Scan of the i-th goroutine fails *)
  | Advert (a : ble.Adv.t)       (* the radio delivers an advertisement *)
  | StartReq                     (* GET /start *)
  | StopReq.                     (* GET /stop *)

Definition in_scan (p : pc) : bool :=
  match p with
  | InScan ctx => match ctx_Err ctx with None => true | Some _ => false end
  | _ => false
  end.

(** One transition of the program. An advertisement is handled only while
    some session is open; a panic in the handler and an error of the radio
    other than the context's ([check]'s default case) end the process. *)
Definition step (e : event) (w : World) : World :=
  if exited w then w else
  match e with
  | Tick => mkWorld (beacons w) (stop w) (ticks w) (tick_pc <$> scans w) false
  | Signal => mkWorld (beacons w) (stop w) (ticks w) (signal_pc <$> scans w) false
  | Run i =>
      match scans w !! i with
      | Some p =>
          let '(p', stop') := scan_step p (stop w) in
          mkWorld (beacons w) stop' (ticks w) (<[i := p']> (scans w)) false
      | None => w
      end
  | RadioError i =>
      match scans w !! i with
      | Some p => if in_scan p
                  then mkWorld (beacons w) (stop w) (ticks w) (scans w) true
                  else w
      | None => w
      end
  | Advert a =>
      if existsb in_scan (scans w) then
        match advHandler a (beacons w) (ticks w) with
        | Ok (bs, k) => mkWorld bs (stop w) k (scans w) false
        | Panic _ => mkWorld (beacons w) (stop w) (ticks w) (scans w) true
        end
      else w
  | StartReq => snd (startScan w)
  | StopReq => snd (stopScan w)
  end.

Definition exec (es : list event) (w : World) : World :=
  foldl (fun w e => step e w) w es.

End Program.

End Beacons.

(* ===================================================================== *)
(** ** The device program                                                 *)
(* ===================================================================== *)

Module Devices.
Import Go.

(** Device represents a BLE device *)
Record Device : Type := mkDevice {
  Address : string;
  Detected : Time;
  Since : string;
  Name : string;
  RSSI : Z;
  Advertisement : string;
  ScanResponse : string
}.

(** The body of the loop of formatHex, over the indices that range yields. *)
Fixpoint formatHex_range (instr : string) (idx : list Z) (outstr : string)
  : outcome string :=
  match idx with
  | [] => mret outstr
  | i :: rest =>
      if Z.rem i 2 =? 0 then
        pair ← substr instr i (i + 2);
        formatHex_range instr rest (outstr +:+ pair +:+ " ")
      else formatHex_range instr rest outstr
  end.

(** reformat string for proper display of hex *)
Definition formatHex (instr : string) : outcome string :=
  formatHex_range instr (range_string instr) "".

Section Program.

Variable clk : clock.

(** [clean]: strings.TrimFunc with unicode.IsGraphic, which depends on the
    Unicode tables. *)
Variable clean : string -> string.

(** [strconv.Itoa(int(d.Seconds()))] for the duration [d] between two
    instants; the conversion goes through a float64. *)
Variable seconds : Time -> Time -> string.

(** Handle the advertisement scan. The state is the global map [devices]
    and the number of clock readings taken so far. *)
Definition adScanHandler (a : ble.Adv.t) (devices : gmap string Device) (k : nat)
  : outcome (gmap string Device * nat) :=
  adv ← formatHex (EncodeToString (elems (ble.Adv.LEAdvertisingReportRaw a)));
  rsp ← formatHex (EncodeToString (elems (ble.Adv.ScanResponseRaw a)));
  let device := {| Address := ble.Adv.Addr a;
                   Detected := clk k;
                   Since := "";
                   Name := clean (ble.Adv.LocalName a);
                   RSSI := ble.Adv.RSSI a;
                   Advertisement := adv;
                   ScanResponse := rsp |} in
  mret (<[ble.Adv.Addr a := device]> devices, S k).

(** [for _, device := range devices] visits every entry of the map once,
    in an order that the language leaves open. *)
Definition ranges (devices : gmap string Device) (visit : list (string * Device))
  : Prop :=
  visit ≡ₚ map_to_list devices.

Definition with_Since (device : Device) (since : string) : Device :=
  {| Address := Address device;
     Detected := Detected device;
     Since := since;
     Name := Name device;
     RSSI := RSSI device;
     Advertisement := Advertisement device;
     ScanResponse := ScanResponse device |}.

(** convert map to array, added detect since duration and remove anything
    that's more than 60 seconds. Each iteration reads the clock twice, for
    time.Since and for time.Now. *)
Fixpoint showDevices_range (visit : list (string * Device)) (data : list Device)
    (k : nat) : list Device * nat :=
  match visit with
  | [] => (data, k)
  | (_, device) :: rest =>
      let device := with_Since device (seconds (clk k) (Detected device)) in
      let tn := Time_Add (clk (S k)) (mul64 (mul64 (-1) 60) Second) in
      if Time_Before tn (Detected device)
      then showDevices_range rest (data ++ [device]) (S (S k))
      else showDevices_range rest data (S (S k))
  end.

(** The order of sort.SliceStable in showDevices,
    [data[i].RSSI > data[j].RSSI]. *)
Definition byRSSI (x y : Device) : bool := RSSI x >? RSSI y.

(** handler to show list of devices: the data handed to the template. *)
Definition showDevices (visit : list (string * Device)) (k : nat)
  : list Device * nat :=
  let '(data, k') := showDevices_range visit [] k in
  (SliceStable byRSSI data, k').

(** *** The scan controller of the device program

    The same flag and the same loop as in the beacon program, with two
    differences: the handlers write no body, and [scan] drops the error
    that ble.Scan returns. *)
Variable dur : nat.

Record World : Type := mkWorld {
  devices : gmap string Device;
  stop : bool;
  ticks : nat;                    (* clock readings taken so far *)
  scans : list Beacons.pc;        (* the scan goroutines *)
  exited : bool                   (* a panic has ended the process *)
}.

Definition init : World := mkWorld ∅ true 0 [] false.

(** handler to start scanning: the status passed to WriteHeader, if any,
    and the state after the handler. *)
Definition startScan (w : World) : option Z * World :=
  if negb (stop w) then (Some 409, w)
  else (None, mkWorld (devices w) (stop w) (ticks w)
                (scans w ++ [Beacons.AtEntry]) (exited w)).

(** handler to stop scanning *)
Definition stopScan (w : World) : option Z * World :=
  if stop w then (Some 409, w)
  else (None, mkWorld (devices w) true (ticks w) (scans w) (exited w)).

(** One step of a scan goroutine. When ble.Scan returns, with whatever
    error, the loop goes on to its test. *)
Definition scan_step (p : Beacons.pc) (stop : bool) : Beacons.pc * bool :=
  match p with
  | Beacons.AtEntry => (Beacons.AtLoopTest, false)
  | Beacons.AtLoopTest =>
      if negb stop then (Beacons.InScan (Beacons.mkCtx dur false), stop)
      else (Beacons.AfterLoop, stop)
  | Beacons.InScan ctx =>
      match Beacons.ctx_Err ctx with
      | Some _ => (Beacons.AtLoopTest, stop)
      | None => (Beacons.InScan ctx, stop)
      end
  | Beacons.AfterLoop => (Beacons.Returned, true)
  | Beacons.Returned => (Beacons.Returned, stop)
  end.

Inductive event : Type :=
  | Tick                         (* one unit of time passes *)
  | Signal                       (* SIGINT or SIGTERM *)
  | Run (i : nat)                (* the i-th scan goroutine takes a step *)
  | RadioError (i : nat)         (* ble.Scan of the i-th goroutine fails *)
  | Advert (a : ble.Adv.t)       (* the radio delivers an advertisement *)
  | StartReq                     (* GET /start *)
  | StopReq.                     (* GET /stop *)

(** One transition of the device program. An advertisement is handled
    only while some session is open, under the mutex; a failing ble.Scan
    returns to the loop, which drops the error. *)
Definition step (e : event) (w : World) : World :=
  if exited w then w else
  match e with
  | Tick =>
      mkWorld (devices w) (stop w) (ticks w) (Beacons.tick_pc <$> scans w) false
  | Signal =>
      mkWorld (devices w) (stop w) (ticks w) (Beacons.signal_pc <$> scans w) false
  | Run i =>
      match scans w !! i with
      | Some p =>
          let '(p', stop') := scan_step p (stop w) in
          mkWorld (devices w) stop' (ticks w) (<[i := p']> (scans w)) false
      | None => w
      end
  | RadioError i =>
      match scans w !! i with
      | Some p =>
          if Beacons.in_scan p
          then mkWorld (devices w) (stop w) (ticks w)
                 (<[i := Beacons.AtLoopTest]> (scans w)) false
          else w
      | None => w
      end
  | Advert a =>
      if existsb Beacons.in_scan (scans w) then
        match adScanHandler a (devices w) (ticks w) with
        | Ok (m, k) => mkWorld m (stop w) k (scans w) false
        | Panic _ => mkWorld (devices w) (stop w) (ticks w) (scans w) true
        end
      else w
  | StartReq => snd (startScan w)
  | StopReq => snd (stopScan w)
  end.

Definition exec (es : list event) (w : World) : World :=
  foldl (fun w e => step e w) w es.

End Program.

End Devices.

(* ===================================================================== *)
(** ** What the specification speaks of                                   *)
(* ===================================================================== *)

Module Spec.
Import Go.

(** The bytes [lo, hi) of a payload, 0-indexed. *)
Definition bytes_between (lo hi : nat) (l : list byte) : list byte :=
  take (hi - lo) (drop lo l).

(** A lowercase hexadecimal digit, and its value. *)
Definition hex_value (c : ascii) : option N :=
  let n := N_of_ascii c in
  if ((48 <=? n) && (n <=? 57))%N then Some (n - 48)%N
  else if ((97 <=? n) && (n <=? 102))%N then Some (n - 87)%N
  else None.

Definition is_lower_hex (c : ascii) : bool :=
  match hex_value c with Some _ => true | None => false end.

Fixpoint all_chars (p : ascii -> bool) (s : string) : bool :=
  match s with
  | EmptyString => true
  | String c rest => p c && all_chars p rest
  end.

(** The bytes that a string of hex pairs denotes. *)
Fixpoint hex_bytes (s : string) : option (list N) :=
  match s with
  | EmptyString => Some []
  | String h (String l rest) =>
      match hex_value h, hex_value l, hex_bytes rest with
      | Some hv, Some lv, Some bs => Some ((16 * hv + lv)%N :: bs)
      | _, _, _ => None
      end
  | String _ EmptyString => None
  end.

(** The number that a string of hex digits denotes. *)
Fixpoint hex_number_from (s : string) (acc : N) : option N :=
  match s with
  | EmptyString => Some acc
  | String c rest =>
      match hex_value c with
      | Some v => hex_number_from rest (16 * acc + v)%N
      | None => None
      end
  end.

Definition hex_number (s : string) : option N :=
  match s with
  | EmptyString => None
  | _ => hex_number_from s 0%N
  end.

(** The rendering of raw bytes for display: each byte as a pair of hex
    digits followed by one space. *)
Fixpoint spaced_pairs (raw : list byte) : string :=
  match raw with
  | [] => EmptyString
  | b :: rest => EncodeToString [b] +:+ " " +:+ spaced_pairs rest
  end.

(** Sorting by descending key, as showDevices does with the RSSI: the
    order handed to the sort, and what it asks of two adjacent entries of
    the result, the earlier key being at least the later. *)
Definition less_by {A} (key : A -> Z) (x y : A) : bool := key x >? key y.
Definition desc_by {A} (key : A -> Z) (x y : A) : Prop := key y <= key x.

(** [d] lies within the trailing [w] seconds of the instant [now]. *)
Definition within (now : Time) (w : Z) (d : Time) : Prop :=
  now - w * 1000000000 < d.

#[export] Instance within_dec now w d : Decision (within now w d).
Proof. unfold within. apply _. Defined.

(** The record of the device program for a sighting of the advertisement
    [a] when the clock reads [now]. *)
Definition sighting (clean : string -> string) (a : ble.Adv.t) (now : Time)
  : Devices.Device :=
  {| Devices.Address := ble.Adv.Addr a;
     Devices.Detected := now;
     Devices.Since := "";
     Devices.Name := clean (ble.Adv.LocalName a);
     Devices.RSSI := ble.Adv.RSSI a;
     Devices.Advertisement := spaced_pairs (elems (ble.Adv.LEAdvertisingReportRaw a));
     Devices.ScanResponse := spaced_pairs (elems (ble.Adv.ScanResponseRaw a)) |}.

(** The beacons that a listing with a window of [w] seconds keeps, when the
    clock is read once per beacon, from its [k]-th reading on: the ones
    detected within the window of the reading taken for them. *)
Definition live (clk : clock) (w : Z) (k : nat) (bs : list Beacons.Beacon)
  : list Beacons.Beacon :=
  (filter (fun p => within p.1 w (Beacons.Detected p.2))
          (zip (clk <$> seq k (length bs)) bs)).*2.

(** What the signature check of advHandler yields on a service data entry,
    read off the bytes of its UUID: nothing when a byte it needs is
    missing. *)
Definition signature (s : ble.ServiceData) : option bool :=
  match elems (ble.UUID s) with
  | [] => None
  | b0 :: rest =>
      if Byte.eqb b0 x03 then
        match rest with
        | [] => None
        | b1 :: _ => Some (Byte.eqb b1 x18)
        end
      else Some false
  end.

(** The entries that carry the Radioland service UUID. *)
Definition radioland (s : ble.ServiceData) : Prop := signature s = Some true.

#[export] Instance radioland_dec s : Decision (radioland s).
Proof. unfold radioland. apply _. Defined.

(** A string without its spaces. *)
Fixpoint strip_spaces (s : string) : string :=
  match s with
  | EmptyString => EmptyString
  | String c rest =>
      if Ascii.eqb c " " then strip_spaces rest else String c (strip_spaces rest)
  end.

(** An ASCII character, and the pairs of a string of an even number of
    characters, each followed by a space. *)
Definition is_ascii (c : ascii) : bool := (N_of_ascii c <? 128)%N.

Fixpoint spaced (s : string) : option string :=
  match s with
  | EmptyString => Some EmptyString
  | String _ EmptyString => None
  | String a (String b rest) =>
      match spaced rest with
      | Some r => Some (String a (String b (String " " r)))
      | None => None
      end
  end.

(** What every beacon that advHandler builds from the advertisement [a]
    holds, whatever the entry it was built for. *)
Definition built_from (a : ble.Adv.t) (b : Beacons.Beacon) : Prop :=
  let md := elems (ble.Adv.ManufacturerData a) in
  Beacons.MAC b = ble.Adv.Addr a /\ Beacons.Name b = ble.Adv.LocalName a
  /\ Beacons.RSSI b = ble.Adv.RSSI a
  /\ Beacons.UUID b = EncodeToString (bytes_between 4 20 md)
  /\ Beacons.Major b = EncodeToString (bytes_between 21 23 md)
  /\ Beacons.Minor b = EncodeToString (bytes_between 24 26 md)
  /\ (exists lb, last md = Some lb /\ Beacons.Battery b = Sprintf_x lb)
  /\ Beacons.ManufacturerData b = EncodeToString md
  /\ Beacons.Temperature b = "0"%string /\ Beacons.BaseStation b = "Pi4"%string.

End Spec.

Import Go Spec.

(* ===================================================================== *)
(** ** Slices and hex strings                                             *)
(* ===================================================================== *)

Section SliceFacts.

Lemma elems_length (s : slice) : wf_slice s -> length (elems s) = slen s.
Proof.
  unfold wf_slice, elems, cap. intros Hwf. rewrite length_take. lia.
Qed.

Lemma elems_of_bytes (l : list byte) : elems (of_bytes l) = l.
Proof. unfold elems, of_bytes. simpl. apply firstn_all. Qed.

Lemma wf_of_bytes (l : list byte) : wf_slice (of_bytes l).
Proof. unfold wf_slice, cap, of_bytes. simpl. lia. Qed.

(** A slice expression whose bounds lie within the length yields the
    elements between the bounds: nothing beyond the length is seen. *)
Lemma reslice_within (s : slice) (lo hi : nat) :
  wf_slice s -> (lo <= hi)%nat -> (hi <= slen s)%nat ->
  exists s', reslice s (Z.of_nat lo) (Z.of_nat hi) = Ok s'
             /\ elems s' = bytes_between lo hi (elems s).
Proof.
  intros Hwf Hlh Hhi. unfold reslice.
  destruct (decide _) as [_|Hn].
  - eexists. split; [reflexivity|].
    unfold elems, bytes_between. simpl.
    replace (Z.to_nat (Z.of_nat hi - Z.of_nat lo)) with (hi - lo)%nat by lia.
    rewrite Nat2Z.id, !take_drop_commute. rewrite take_take.
    replace ((lo + (hi - lo)) `min` slen s)%nat with (lo + (hi - lo))%nat by lia.
    reflexivity.
  - exfalso. apply Hn. unfold wf_slice in Hwf. lia.
Qed.

(** Reading the last element of a non-empty slice. *)
Lemma index_last (s : slice) :
  wf_slice s -> (1 <= slen s)%nat ->
  exists b, last (elems s) = Some b
            /\ index s (Z.of_nat (slen s) - 1) = Ok b.
Proof.
  intros Hwf Hlen. unfold index.
  destruct (decide _) as [_|Hn]; [|exfalso; apply Hn; lia].
  replace (Z.to_nat (Z.of_nat (slen s) - 1)) with (pred (slen s)) by lia.
  rewrite last_lookup, elems_length by assumption.
  unfold elems. rewrite lookup_take_lt by lia.
  destruct (backing s !! pred (slen s)) as [b|] eqn:Hb.
  - exists b. split; reflexivity.
  - apply lookup_ge_None in Hb. unfold wf_slice, cap in Hwf. lia.
Qed.

End SliceFacts.

Section HexFacts.

Lemma hex_pair_of_byte (b : byte) :
  let h := hexdigit (N.shiftr (Byte.to_N b) 4) in
  let l := hexdigit (N.land (Byte.to_N b) 15) in
  is_lower_hex h = true /\ is_lower_hex l = true
  /\ hex_bytes (String h (String l EmptyString)) = Some [Byte.to_N b].
Proof. destruct b; vm_compute; repeat split; reflexivity. Qed.

Lemma EncodeToString_length (l : list byte) :
  String.length (EncodeToString l) = (2 * length l)%nat.
Proof. induction l as [|b l IH]; simpl; [reflexivity | rewrite IH; lia]. Qed.

Lemma EncodeToString_lower (l : list byte) :
  all_chars is_lower_hex (EncodeToString l) = true.
Proof.
  induction l as [|b l IH]; [reflexivity|].
  destruct (hex_pair_of_byte b) as (Hh & Hl & _).
  simpl. rewrite Hh, Hl, IH. reflexivity.
Qed.

Lemma EncodeToString_denotes (l : list byte) :
  hex_bytes (EncodeToString l) = Some (Byte.to_N <$> l).
Proof.
  induction l as [|b l IH]; [reflexivity|].
  destruct (hex_pair_of_byte b) as (Hh & Hl & Hv).
  cbn [EncodeToString hex_bytes]. rewrite IH.
  unfold is_lower_hex in Hh, Hl. cbn [hex_bytes] in Hv.
  destruct (hex_value _) as [hv|]; [|discriminate].
  destruct (hex_value _) as [lv|]; [|discriminate].
  rewrite fmap_cons. congruence.
Qed.

(** %x prints a byte with one digit below 16 and with two from 16 on. *)
Lemma Sprintf_x_unpadded (b : byte) :
  all_chars is_lower_hex (Sprintf_x b) = true
  /\ hex_number (Sprintf_x b) = Some (Byte.to_N b)
  /\ String.length (Sprintf_x b) = (if (Byte.to_N b <? 16)%N then 1 else 2)%nat.
Proof. destruct b; vm_compute; repeat split; reflexivity. Qed.

End HexFacts.

(* ===================================================================== *)
(** ** The decoder of the beacon program                                  *)
(* ===================================================================== *)

Section Decoder.
Import Beacons.

Lemma index_lookup (s : slice) (i : nat) :
  wf_slice s -> (i < slen s)%nat ->
  exists b, elems s !! i = Some b /\ index s (Z.of_nat i) = Ok b.
Proof.
  intros Hwf Hi. unfold index, elems.
  destruct (decide _) as [_|Hn]; [|exfalso; apply Hn; lia].
  rewrite Nat2Z.id, lookup_take_lt by lia.
  destruct (backing s !! i) as [b|] eqn:Hb.
  - exists b. split; reflexivity.
  - apply lookup_ge_None in Hb. unfold wf_slice, cap in Hwf. lia.
Qed.

Lemma bytes_between_length (lo hi : nat) (l : list byte) :
  (hi <= length l)%nat -> length (bytes_between lo hi l) = (hi - lo)%nat.
Proof.
  intros H. unfold bytes_between. rewrite length_take, length_drop. lia.
Qed.

(** From 26 bytes on, every getter finds its bytes inside the payload. *)
Lemma getters_ok (md : slice) :
  wf_slice md -> (26 <= slen md)%nat ->
  getUUID md = Ok (EncodeToString (bytes_between 4 20 (elems md)))
  /\ getMajor md = Ok (EncodeToString (bytes_between 21 23 (elems md)))
  /\ getMinor md = Ok (EncodeToString (bytes_between 24 26 (elems md)))
  /\ exists b, last (elems md) = Some b
               /\ getBatteryLevel md = Ok (Sprintf_x b).
Proof.
  intros Hwf Hlen.
  destruct (reslice_within md 4 20 Hwf) as (s1 & H1 & E1); [lia..|].
  destruct (reslice_within md 21 23 Hwf) as (s2 & H2 & E2); [lia..|].
  destruct (reslice_within md 24 26 Hwf) as (s3 & H3 & E3); [lia..|].
  destruct (index_last md Hwf) as (b & Hb & Hi); [lia|].
  change (Z.of_nat 4) with 4 in H1. change (Z.of_nat 20) with 20 in H1.
  change (Z.of_nat 21) with 21 in H2. change (Z.of_nat 23) with 23 in H2.
  change (Z.of_nat 24) with 24 in H3. change (Z.of_nat 26) with 26 in H3.
  unfold getUUID, getMajor, getMinor, getBatteryLevel.
  rewrite H1, H2, H3, Hi. cbn. rewrite E1, E2, E3.
  repeat split. exists b. split; [assumption | reflexivity].
Qed.

(** C3: for every manufacturer data of at least 26 bytes (27 included),
    the decoded fields are the bytes at the documented offsets, [4,20) for
    the UUID, [21,23) for the major, [24,26) for the minor and the last
    byte for the battery, written in lowercase hex: 32 characters for the
    UUID, 4 for the major and for the minor, and 1 or 2 characters, without
    padding, for the battery. *)
Theorem decoded_fields_at_offsets (md : slice) :
  wf_slice md -> (26 <= slen md)%nat ->
  exists (uuid major minor batt : string) (b : byte),
    getUUID md = Ok uuid /\ getMajor md = Ok major
    /\ getMinor md = Ok minor /\ getBatteryLevel md = Ok batt
    /\ last (elems md) = Some b
    /\ hex_bytes uuid = Some (Byte.to_N <$> bytes_between 4 20 (elems md))
    /\ hex_bytes major = Some (Byte.to_N <$> bytes_between 21 23 (elems md))
    /\ hex_bytes minor = Some (Byte.to_N <$> bytes_between 24 26 (elems md))
    /\ hex_number batt = Some (Byte.to_N b)
    /\ String.length uuid = 32%nat /\ String.length major = 4%nat
    /\ String.length minor = 4%nat
    /\ String.length batt = (if (Byte.to_N b <? 16)%N then 1 else 2)%nat
    /\ all_chars is_lower_hex uuid = true /\ all_chars is_lower_hex major = true
    /\ all_chars is_lower_hex minor = true /\ all_chars is_lower_hex batt = true.
Proof.
  intros Hwf Hlen.
  destruct (getters_ok md Hwf Hlen) as (Hu & Hma & Hmi & b & Hb & Hba).
  destruct (Sprintf_x_unpadded b) as (Hlow & Hnum & Hw).
  pose proof (elems_length md Hwf) as Hl.
  eexists _, _, _, _, b.
  repeat match goal with |- _ /\ _ => split end;
    try eassumption;
    try apply EncodeToString_denotes;
    try apply EncodeToString_lower.
  all: rewrite EncodeToString_length, bytes_between_length by lia; reflexivity.
Qed.

Lemma decoded_fields_at_offsets_witness :
  exists md : slice, (slen md = 27)%nat /\
  exists (uuid major minor batt : string),
    getUUID md = Ok uuid /\ getMajor md = Ok major
    /\ getMinor md = Ok minor /\ getBatteryLevel md = Ok batt
    /\ String.length uuid = 32%nat /\ hex_number batt = Some 11%N.
Proof.
  exists (of_bytes [x4c; x00; x02; x15;
                    xa0; xa1; xa2; xa3; xa4; xa5; xa6; xa7;
                    xa8; xa9; xaa; xab; xac; xad; xae; xaf;
                    x00; x12; x34; x00; x56; x78; x0b]).
  split; [reflexivity|].
  destruct (decoded_fields_at_offsets
              (of_bytes [x4c; x00; x02; x15;
                         xa0; xa1; xa2; xa3; xa4; xa5; xa6; xa7;
                         xa8; xa9; xaa; xab; xac; xad; xae; xaf;
                         x00; x12; x34; x00; x56; x78; x0b]))
    as (uuid & major & minor & batt & b & Hu & Hma & Hmi & Hba & Hb & _ & _ & _
        & Hn & Hlu & _).
  - apply wf_of_bytes.
  - simpl. lia.
  - exists uuid, major, minor, batt.
    rewrite elems_of_bytes in Hb. injection Hb as <-.
    repeat split; assumption.
Defined.

(** C1 (as amended): the getters return strings and have no error result;
    they take no length check, and for every manufacturer data of at least
    26 bytes each of them returns its field without indexing out of
    bounds. *)
Theorem getters_return_from_26_bytes (md : slice) :
  wf_slice md -> (26 <= slen md)%nat ->
  returns (getUUID md) /\ returns (getMajor md)
  /\ returns (getMinor md) /\ returns (getBatteryLevel md).
Proof.
  intros Hwf Hlen. unfold returns.
  destruct (getters_ok md Hwf Hlen) as (Hu & Hma & Hmi & b & _ & Hba).
  eauto 10.
Qed.

Lemma getters_return_from_26_bytes_witness :
  let md := of_bytes (replicate 26 x00) in
  returns (getUUID md) /\ returns (getMajor md)
  /\ returns (getMinor md) /\ returns (getBatteryLevel md).
Proof.
  apply (getters_return_from_26_bytes (of_bytes (replicate 26 x00))).
  - apply wf_of_bytes.
  - simpl. lia.
Defined.

(** C1 (counterexample): a manufacturer data of 26 bytes is shorter than
    27, and yet the four getters decode it: none of them reports an
    error. *)
Lemma short_payload_is_decoded :
  let md := of_bytes [x4c; x00; x02; x15;
                      xa0; xa1; xa2; xa3; xa4; xa5; xa6; xa7;
                      xa8; xa9; xaa; xab; xac; xad; xae; xaf;
                      x00; x12; x34; x00; x56; x78] in
  (slen md < 27)%nat
  /\ getUUID md = Ok "a0a1a2a3a4a5a6a7a8a9aaabacadaeaf"%string
  /\ getMajor md = Ok "1234"%string
  /\ getMinor md = Ok "5678"%string
  /\ getBatteryLevel md = Ok "78"%string.
Proof. cbv zeta. split; [simpl; lia|]. repeat split; reflexivity. Qed.

(** The slicing is unguarded: on an empty payload getUUID panics. *)
Example getUUID_unguarded :
  getUUID (of_bytes []) = Panic SliceBoundsOutOfRange
  /\ getBatteryLevel (of_bytes []) = Panic IndexOutOfRange.
Proof. split; reflexivity. Qed.

(** C10: the signature check of advHandler reads [s.UUID[0]] and
    [s.UUID[1]] without a length check. When every service data entry of
    the advertisement carries a UUID of at least 2 bytes, the check returns
    for every entry, with the comparison of the two bytes to 0x03 and 0x18;
    without that precondition it can index out of range, as on an empty
    UUID. *)
Theorem signature_check_total (a : ble.Adv.t) :
  Forall (fun s => wf_slice (ble.UUID s) /\ (2 <= slen (ble.UUID s))%nat)
         (ble.Adv.ServiceData a) ->
  Forall (fun s => exists b0 b1,
            elems (ble.UUID s) !! 0%nat = Some b0
            /\ elems (ble.UUID s) !! 1%nat = Some b1
            /\ isRadioland s = Ok (Byte.eqb b0 x03 && Byte.eqb b1 x18))
         (ble.Adv.ServiceData a)
  /\ (forall d, isRadioland (ble.mkServiceData (of_bytes []) d)
                = Panic IndexOutOfRange).
Proof.
  intros Hpre. split; [|reflexivity].
  eapply Forall_impl; [exact Hpre|].
  intros s [Hwf Hlen]. simpl.
  destruct (index_lookup (ble.UUID s) 0 Hwf) as (b0 & E0 & I0); [lia|].
  destruct (index_lookup (ble.UUID s) 1 Hwf) as (b1 & E1 & I1); [lia|].
  exists b0, b1. split; [assumption|]. split; [assumption|].
  unfold isRadioland. change (Z.of_nat 0) with 0 in I0.
  change (Z.of_nat 1) with 1 in I1. rewrite I0. cbn.
  destruct (Byte.eqb b0 x03); [rewrite I1|]; reflexivity.
Qed.

Lemma signature_check_total_witness :
  let a := ble.Adv.mk "c4:7c:8d:6a:3e:01" "tag" (-60) (of_bytes [])
             [ble.mkServiceData (of_bytes [x03; x18]) (of_bytes []);
              ble.mkServiceData (of_bytes [x0f; x18]) (of_bytes [x64])]
             (of_bytes []) (of_bytes []) in
  Forall (fun s => returns (isRadioland s)) (ble.Adv.ServiceData a).
Proof.
  intros a. destruct (signature_check_total a) as [H _].
  - repeat constructor; simpl; lia.
  - eapply Forall_impl; [exact H|].
    intros s (b0 & b1 & _ & _ & Hs). eexists. exact Hs.
Defined.

End Decoder.

(* ===================================================================== *)
(** ** The display of raw bytes in the device program                     *)
(* ===================================================================== *)

Section FormatHex.
Import Devices.

Lemma app_cons (c : ascii) (s t : string) : String c s +:+ t = String c (s +:+ t).
Proof. reflexivity. Qed.

Lemma app_empty_r (s : string) : s +:+ "" = s.
Proof. induction s as [|c s IH]; [reflexivity|]. rewrite app_cons, IH. reflexivity. Qed.

Lemma app_assoc_string (s t u : string) : (s +:+ t) +:+ u = s +:+ t +:+ u.
Proof.
  induction s as [|c s IH]; [reflexivity|]. rewrite !app_cons, IH. reflexivity.
Qed.

Lemma app_length_string (s t : string) :
  String.length (s +:+ t) = (String.length s + String.length t)%nat.
Proof.
  induction s as [|c s IH]; [reflexivity|]. rewrite app_cons. simpl. rewrite IH.
  reflexivity.
Qed.

(** The two characters that follow a prefix. *)
Lemma substring_after (pre : string) (h l : ascii) (rest : string) :
  substring (String.length pre) 2 (pre +:+ String h (String l rest))
  = String h (String l EmptyString).
Proof.
  induction pre as [|c pre IH].
  - simpl. destruct rest; reflexivity.
  - rewrite app_cons. simpl. exact IH.
Qed.

Lemma lower_hex_is_ascii (c : ascii) :
  is_lower_hex c = true -> (N_of_ascii c <? 128)%N = true.
Proof.
  unfold is_lower_hex, hex_value. intros H. apply N.ltb_lt.
  destruct ((48 <=? N_of_ascii c) && (N_of_ascii c <=? 57))%N eqn:E1.
  - apply andb_true_iff in E1 as [_ E1]. apply N.leb_le in E1. lia.
  - destruct ((97 <=? N_of_ascii c) && (N_of_ascii c <=? 102))%N eqn:E2;
      [|discriminate].
    apply andb_true_iff in E2 as [_ E2]. apply N.leb_le in E2. lia.
Qed.

(** A hex digit is a rune of one byte. *)
Lemma rune_width_hex (c : ascii) (rest : string) :
  is_lower_hex c = true -> rune_width (String c rest) = 1%nat.
Proof.
  intros H. unfold rune_width. rewrite (lower_hex_is_ascii c H). reflexivity.
Qed.

(** The loop of formatHex over the encoding of [raw], which the string
    [instr] holds after an even number of bytes [pre]. *)
Lemma formatHex_range_encoded (raw : list byte) :
  forall (pre out : string) (m : Z),
    Z.of_nat (String.length pre) = 2 * m ->
    formatHex_range (pre +:+ EncodeToString raw)
      (rune_starts (EncodeToString raw) (2 * m) 0) out
    = Ok (out +:+ spaced_pairs raw).
Proof.
  induction raw as [|b raw IH]; intros pre out m Hpre.
  - simpl. rewrite app_empty_r. reflexivity.
  - destruct (hex_pair_of_byte b) as (Hh & Hl & _). cbv zeta in Hh, Hl.
    cbn [EncodeToString rune_starts].
    rewrite (rune_width_hex _ _ Hh), (rune_width_hex _ _ Hl).
    cbn [Nat.sub rune_starts formatHex_range].
    assert (E0 : (Z.rem (2 * m) 2 =? 0) = true).
    { apply Z.eqb_eq. rewrite Z.mul_comm. apply Z.rem_mul. lia. }
    assert (E1 : (Z.rem (2 * m + 1) 2 =? 0) = false).
    { apply Z.eqb_neq. rewrite Z.rem_mod_nonneg by lia.
      rewrite Z.add_comm, Z.mul_comm, Z.mod_add by lia. discriminate. }
    rewrite E0, E1.
    unfold substr. destruct (decide _) as [_|Hn].
    + rewrite <- Hpre, Nat2Z.id.
      replace (Z.to_nat (Z.of_nat (String.length pre) + 2
                         - Z.of_nat (String.length pre))) with 2%nat by lia.
      rewrite substring_after. cbn [mbind outcome_bind].
      set (h := hexdigit (N.shiftr (Byte.to_N b) 4)).
      set (l := hexdigit (N.land (Byte.to_N b) 15)).
      replace (pre +:+ String h (String l (EncodeToString raw)))
        with ((pre +:+ String h (String l EmptyString)) +:+ EncodeToString raw)
        by (rewrite app_assoc_string; reflexivity).
      replace (Z.of_nat (String.length pre) + 1 + 1) with (2 * (m + 1)) by lia.
      rewrite IH.
      * f_equal. rewrite !app_assoc_string. reflexivity.
      * rewrite app_length_string. simpl. lia.
    + exfalso. apply Hn. rewrite app_length_string. simpl. lia.
Qed.

(** formatHex returns on every string that hex.EncodeToString produces. *)
Lemma formatHex_encoded (raw : list byte) :
  formatHex (EncodeToString raw) = Ok (spaced_pairs raw).
Proof.
  unfold formatHex, range_string.
  exact (formatHex_range_encoded raw EmptyString EmptyString 0 eq_refl).
Qed.

Lemma spaced_pairs_length (raw : list byte) :
  String.length (spaced_pairs raw) = (3 * length raw)%nat.
Proof.
  induction raw as [|b raw IH]; [reflexivity|].
  cbn [spaced_pairs]. rewrite !app_length_string, IH. simpl. lia.
Qed.

(** C9: the display of raw bytes, [formatHex(hex.EncodeToString(raw))],
    writes every byte as a pair of lowercase hex digits followed by one
    space, the last pair included, so that the string is three characters
    per byte; for the bytes 0xAA 0xBB it is "aa bb ". *)
Theorem formatRawBytes_spaced_pairs (raw : list byte) :
  formatHex (EncodeToString raw) = Ok (spaced_pairs raw)
  /\ String.length (spaced_pairs raw) = (3 * length raw)%nat
  /\ Forall (fun b => all_chars is_lower_hex (EncodeToString [b]) = true
                      /\ hex_bytes (EncodeToString [b]) = Some [Byte.to_N b]) raw
  /\ formatHex (EncodeToString [xaa; xbb]) = Ok "aa bb "%string.
Proof.
  split; [apply formatHex_encoded|].
  split; [apply spaced_pairs_length|]. split; [|reflexivity].
  apply Forall_forall. intros b _.
  split; [apply EncodeToString_lower | apply EncodeToString_denotes].
Qed.

End FormatHex.

(* ===================================================================== *)
(** ** The registries                                                     *)
(* ===================================================================== *)

Section Registry.

Variable clk : clock.
Variable clean : string -> string.

(** The scan handler of the device program returns on every
    advertisement, and stores the sighting under its address. *)
Lemma adScanHandler_ok (a : ble.Adv.t) (devices : gmap string Devices.Device)
    (k : nat) :
  Devices.adScanHandler clk clean a devices k
  = Ok (<[ble.Adv.Addr a := sighting clean a (clk k)]> devices, S k).
Proof.
  unfold Devices.adScanHandler. rewrite !formatHex_encoded. reflexivity.
Qed.

Lemma filter_key_absent {V} (l : list (string * V)) (x : string) :
  x ∉ l.*1 -> filter (fun e => e.1 = x) l = [].
Proof.
  induction l as [|[y e] l IH]; intros Hx; [reflexivity|].
  rewrite fmap_cons in Hx. apply not_elem_of_cons in Hx as [Hne Hx].
  rewrite filter_cons_False by (simpl; intros ->; apply Hne; reflexivity).
  apply IH. assumption.
Qed.

(** Among entries with distinct keys, the ones with a given key are the
    single entry that holds it. *)
Lemma filter_key_unique {V} (l : list (string * V)) (x : string) (d : V) :
  NoDup l.*1 -> (x, d) ∈ l -> filter (fun e => e.1 = x) l = [(x, d)].
Proof.
  induction l as [|[y e] l IH]; intros Hnd Hin.
  - inversion Hin.
  - rewrite fmap_cons in Hnd. apply NoDup_cons in Hnd as [Hy Hnd].
    apply elem_of_cons in Hin as [Heq|Hin].
    + injection Heq as -> ->.
      rewrite filter_cons_True by reflexivity.
      rewrite filter_key_absent by assumption. reflexivity.
    + assert (y <> x) as Hne.
      { intros ->. apply Hy. apply (list_elem_of_fmap_2 fst) in Hin. exact Hin. }
      rewrite filter_cons_False by (simpl; congruence).
      apply IH; assumption.
Qed.

(** The beacon handler only ever extends the list of beacons. *)
Lemma advHandler_range_extends (a : ble.Adv.t) (svcdata : list ble.ServiceData) :
  forall (beacons bs' : list Beacons.Beacon) (k k' : nat),
    Beacons.advHandler_range clk a svcdata beacons k = Ok (bs', k') ->
    exists new, bs' = beacons ++ new /\ k' = (k + length new)%nat
                /\ Forall (fun b => Beacons.MAC b = ble.Adv.Addr a) new.
Proof.
  induction svcdata as [|s rest IH]; intros beacons bs' k k' H.
  - injection H as <- <-. exists []. rewrite app_nil_r. simpl.
    split; [reflexivity|]. split; [lia | constructor].
  - cbn [Beacons.advHandler_range] in H.
    destruct (Beacons.isRadioland s) as [c|] eqn:Hc; [|discriminate].
    cbn [mbind outcome_bind] in H. destruct c.
    + destruct (Beacons.mkSighting a s (clk k)) as [b|] eqn:Hb; [|discriminate].
      cbn [mbind outcome_bind] in H.
      destruct (IH _ _ _ _ H) as (new & -> & -> & Hall).
      exists (b :: new). rewrite <- app_assoc. split; [reflexivity|].
      split; [simpl; lia|]. constructor; [|assumption].
      unfold Beacons.mkSighting in Hb.
      destruct (Beacons.getUUID _); [|discriminate].
      destruct (Beacons.getMajor _); [|discriminate].
      destruct (Beacons.getMinor _); [|discriminate].
      destruct (Beacons.getBatteryLevel _); [|discriminate].
      injection Hb as <-. reflexivity.
    + exact (IH _ _ _ _ H).
Qed.

(** C2 (as amended): in the device program the registry is a map keyed by
    the address: after a sighting of an address and then a second one of
    the same address, the map holds for that address the record of the
    second sighting, every traversal of the map meets exactly one entry
    with that address, and the map has not grown with the second sighting.
    The beacon program instead keeps a list, to which each handled
    advertisement adds its records behind the ones already there. *)
Theorem device_registry_one_record_per_address
    (a1 a2 : ble.Adv.t) (devices : gmap string Devices.Device) (k : nat) :
  ble.Adv.Addr a1 = ble.Adv.Addr a2 ->
  (exists m1 m2,
      Devices.adScanHandler clk clean a1 devices k = Ok (m1, S k)
      /\ Devices.adScanHandler clk clean a2 m1 (S k) = Ok (m2, S (S k))
      /\ m2 !! ble.Adv.Addr a1 = Some (sighting clean a2 (clk (S k)))
      /\ (forall visit, Devices.ranges m2 visit ->
            filter (fun e => e.1 = ble.Adv.Addr a1) visit
            = [(ble.Adv.Addr a1, sighting clean a2 (clk (S k)))])
      /\ size m2 = size m1)
  /\ (forall a beacons bs' j j',
        Beacons.advHandler clk a beacons j = Ok (bs', j') ->
        exists new, bs' = beacons ++ new).
Proof.
  intros Haddr. split.
  - eexists _, _. split; [apply adScanHandler_ok|].
    split; [apply adScanHandler_ok|].
    rewrite <- Haddr.
    split; [apply lookup_insert_eq|]. split.
    + intros visit Hv. unfold Devices.ranges in Hv.
      apply filter_key_unique.
      * rewrite Hv. apply NoDup_fst_map_to_list.
      * rewrite Hv. apply elem_of_map_to_list. apply lookup_insert_eq.
    + rewrite insert_insert_eq, !map_size_insert. reflexivity.
  - intros a beacons bs' j j' H. unfold Beacons.advHandler in H.
    destruct (decide _).
    + destruct (advHandler_range_extends _ _ _ _ _ _ H) as (new & -> & _).
      exists new. reflexivity.
    + injection H as <- <-. exists []. rewrite app_nil_r. reflexivity.
Qed.

End Registry.

Lemma device_registry_one_record_per_address_witness :
  let a := ble.Adv.mk "c4:7c:8d:6a:3e:01" "tag" (-60) (of_bytes [])
             [] (of_bytes [x02; x01; x06]) (of_bytes []) in
  exists m2 : gmap string Devices.Device,
    (Devices.adScanHandler (fun n => Z.of_nat n) id a ∅ 0
       ≫= fun '(m1, k) => Devices.adScanHandler (fun n => Z.of_nat n) id a m1 k)
    = Ok (m2, 2%nat)
    /\ size m2 = 1%nat.
Proof.
  intros a.
  destruct (device_registry_one_record_per_address (fun n => Z.of_nat n) id
              a a ∅ 0 eq_refl) as [(m1 & m2 & H1 & H2 & _ & _ & Hsz) _].
  exists m2. rewrite H1. cbn [mbind outcome_bind]. split; [exact H2|].
  rewrite Hsz. rewrite adScanHandler_ok in H1. injection H1 as <-.
  rewrite map_size_insert_None by apply lookup_empty. rewrite map_size_empty.
  reflexivity.
Defined.

(** C2 (counterexample): in the beacon program two sightings of the same
    address leave two entries for it in the list of beacons. *)
Lemma beacon_list_keeps_both_sightings :
  let clk : clock := fun n => Z.of_nat n in
  let a := ble.Adv.mk "c4:7c:8d:6a:3e:01" "tag" (-60)
             (of_bytes (replicate 27 x00))
             [ble.mkServiceData (of_bytes [x03; x18]) (of_bytes [])]
             (of_bytes []) (of_bytes []) in
  exists b1 b2,
    (Beacons.advHandler clk a [] 0
       ≫= fun '(bs, k) => Beacons.advHandler clk a bs k)
    = Ok ([b1; b2], 2%nat)
    /\ Beacons.MAC b1 = "c4:7c:8d:6a:3e:01"%string
    /\ Beacons.MAC b2 = "c4:7c:8d:6a:3e:01"%string.
Proof.
  eexists _, _. split; [reflexivity|]. split; reflexivity.
Qed.

(* ===================================================================== *)
(** ** The order of the device listing                                    *)
(* ===================================================================== *)

Section StableSort.

Context {A : Type} (key : A -> Z).

Lemma insert_stable_perm (x : A) (l : list A) :
  insert_stable (less_by key) x l ≡ₚ x :: l.
Proof.
  induction l as [|y l IH]; [reflexivity|]. simpl.
  destruct (less_by key y x); [|reflexivity].
  rewrite IH. apply Permutation_swap.
Qed.

Lemma SliceStable_perm (l : list A) : SliceStable (less_by key) l ≡ₚ l.
Proof.
  induction l as [|x l IH]; [reflexivity|].
  unfold SliceStable in *. simpl. rewrite insert_stable_perm, IH. reflexivity.
Qed.

Lemma insert_stable_HdRel (x y : A) (l : list A) :
  desc_by key y x -> HdRel (desc_by key) y l ->
  HdRel (desc_by key) y (insert_stable (less_by key) x l).
Proof.
  intros Hyx Hhd. destruct l as [|z l]; simpl.
  - constructor. assumption.
  - destruct (less_by key z x); constructor; [|assumption].
    inversion Hhd; assumption.
Qed.

Lemma insert_stable_sorted (x : A) (l : list A) :
  Sorted (desc_by key) l -> Sorted (desc_by key) (insert_stable (less_by key) x l).
Proof.
  induction l as [|y l IH]; intros Hs; simpl.
  - repeat constructor.
  - apply Sorted_inv in Hs as [Hs Hhd].
    destruct (less_by key y x) eqn:Hlt; unfold less_by in Hlt.
    + constructor; [apply IH; assumption|].
      apply insert_stable_HdRel; [|assumption].
      unfold desc_by. apply Z.gtb_lt in Hlt. lia.
    + constructor; [constructor; assumption|].
      constructor. unfold desc_by.
      rewrite Z.gtb_ltb in Hlt. apply Z.ltb_ge in Hlt. assumption.
Qed.

Lemma SliceStable_sorted (l : list A) :
  Sorted (desc_by key) (SliceStable (less_by key) l).
Proof.
  induction l as [|x l IH]; [constructor|].
  unfold SliceStable in *. simpl. apply insert_stable_sorted. assumption.
Qed.

(** Inserting an element does not change the order among the entries of
    any one key. *)
Lemma insert_stable_filter (r : Z) (x : A) (l : list A) :
  filter (fun d => key d = r) (insert_stable (less_by key) x l)
  = filter (fun d => key d = r) (x :: l).
Proof.
  induction l as [|y l IH]; [reflexivity|]. simpl.
  destruct (less_by key y x) eqn:Hlt; [|reflexivity]. unfold less_by in Hlt.
  apply Z.gtb_lt in Hlt.
  rewrite (filter_cons _ y), IH, !(filter_cons _ x), (filter_cons _ y).
  destruct (decide (key y = r)), (decide (key x = r)); try reflexivity. lia.
Qed.

Lemma SliceStable_filter (r : Z) (l : list A) :
  filter (fun d => key d = r) (SliceStable (less_by key) l)
  = filter (fun d => key d = r) l.
Proof.
  induction l as [|x l IH]; [reflexivity|].
  unfold SliceStable in *. simpl.
  rewrite insert_stable_filter, !(filter_cons _ x), IH. reflexivity.
Qed.

(** In a sorted list, what [Sorted] says of two adjacent positions. *)
Lemma Sorted_adjacent (l : list A) (i : nat) (x y : A) :
  Sorted (desc_by key) l -> l !! i = Some x -> l !! S i = Some y -> key y <= key x.
Proof.
  revert i. induction l as [|z l IH]; intros i Hs Hx Hy; [discriminate|].
  apply Sorted_inv in Hs as [Hs Hhd]. destruct i as [|i].
  - injection Hx as ->. destruct l as [|z' l]; [discriminate|].
    injection Hy as ->. inversion Hhd. assumption.
  - exact (IH i Hs Hx Hy).
Qed.

End StableSort.

(* ===================================================================== *)
(** ** The listings and their staleness window                            *)
(* ===================================================================== *)

Section Liveness.

Variable clk : clock.
Variable seconds : Time -> Time -> string.

(** A window of at most 9223372036 seconds is a Duration that fits an
    int64: its product by time.Second does not wrap around. *)
Lemma window_duration (w : Z) :
  -9223372036 <= w <= 9223372036 ->
  mul64 (mul64 (-1) w) Second = - (w * 1000000000).
Proof.
  intros Hw. unfold mul64, wrap64, Second.
  rewrite (Z.mod_small (-1 * w + 2 ^ 63)) by lia.
  replace (-1 * w + 2 ^ 63 - 2 ^ 63) with (- w) by lia.
  rewrite Z.mod_small by lia. lia.
Qed.

Lemma live_cons (w : Z) (k : nat) (b : Beacons.Beacon) (bs : list Beacons.Beacon) :
  live clk w k (b :: bs)
  = (if decide (within (clk k) w (Beacons.Detected b)) then [b] else [])
    ++ live clk w (S k) bs.
Proof.
  unfold live. cbn [length seq]. rewrite fmap_cons. cbn [zip zip_with].
  rewrite filter_cons. simpl. destruct (decide _); reflexivity.
Qed.

Lemma elem_of_live (w : Z) (bs : list Beacons.Beacon) :
  forall (k : nat) (b : Beacons.Beacon),
    (b ∈ live clk w k bs)
    <-> (exists i, bs !! i = Some b
                   /\ within (clk (k + i)%nat) w (Beacons.Detected b)).
Proof.
  induction bs as [|b0 bs IH]; intros k b.
  - unfold live. simpl. split.
    + intros H. inversion H.
    + intros (i & Hi & _). destruct i; discriminate.
  - rewrite live_cons, elem_of_app, IH. split.
    + intros [H|(i & Hi & Hw)].
      * destruct (decide _) as [Hw|]; [|inversion H].
        apply list_elem_of_singleton in H as ->.
        exists 0%nat. rewrite Nat.add_0_r. split; [reflexivity | assumption].
      * exists (S i). replace (k + S i)%nat with (S k + i)%nat by lia.
        split; assumption.
    + intros ([|i] & Hi & Hw).
      * left. injection Hi as ->. rewrite Nat.add_0_r in Hw.
        rewrite decide_True by assumption. apply list_elem_of_singleton.
        reflexivity.
      * right. exists i. replace (S k + i)%nat with (k + S i)%nat by lia.
        split; assumption.
Qed.

(** The loop of filterByDate, for a window that fits. *)
Lemma filterByDate_range_live (w : Z) (bs : list Beacons.Beacon) :
  -9223372036 <= w <= 9223372036 ->
  forall (results : list Beacons.Beacon) (k : nat),
    Beacons.filterByDate_range clk bs w results k
    = (results ++ live clk w k bs, (k + length bs)%nat).
Proof.
  intros Hw. induction bs as [|b bs IH]; intros results k.
  - unfold live. simpl. rewrite app_nil_r, Nat.add_0_r. reflexivity.
  - cbn [Beacons.filterByDate_range]. rewrite live_cons, window_duration by assumption.
    unfold Time_Add, Time_Before.
    destruct (decide (within (clk k) w (Beacons.Detected b))) as [Hin|Hout];
      unfold within in *.
    + replace (clk k + - (w * 1000000000) <? Beacons.Detected b) with true
        by (symmetry; apply Z.ltb_lt; lia).
      rewrite IH, <- app_assoc. simpl. f_equal. lia.
    + replace (clk k + - (w * 1000000000) <? Beacons.Detected b) with false
        by (symmetry; apply Z.ltb_ge; lia).
      rewrite IH. simpl. f_equal. lia.
Qed.

(** The loop of showDevices keeps the visited devices that were detected
    within 60 seconds of the second clock reading of their iteration. *)
Lemma elem_of_showDevices_range (visit : list (string * Devices.Device)) :
  forall (data : list Devices.Device) (k : nat) (d' : Devices.Device),
    (d' ∈ (Devices.showDevices_range clk seconds visit data k).1)
    <-> (d' ∈ data
         \/ exists i key d,
              visit !! i = Some (key, d)
              /\ within (clk (S (k + 2 * i))) 60 (Devices.Detected d)
              /\ d' = Devices.with_Since d
                        (seconds (clk (k + 2 * i)%nat) (Devices.Detected d))).
Proof.
  induction visit as [|[key0 d0] rest IH]; intros data k d'.
  - simpl. split; [tauto|]. intros [H|(i & key & d & Hi & _)]; [assumption|].
    destruct i; discriminate.
  - cbn [Devices.showDevices_range].
    rewrite (window_duration 60) by lia. unfold Time_Add, Time_Before.
    cbn [Devices.with_Since Devices.Detected].
    destruct (clk (S k) + - (60 * 1000000000) <? Devices.Detected d0) eqn:Hlt;
      rewrite IH; [rewrite elem_of_app, list_elem_of_singleton|]; split.
    + intros [[H | ->] | (i & key & d & Hi & Hw & ->)].
      * left. assumption.
      * right. exists 0%nat, key0, d0. rewrite Nat.mul_0_r, Nat.add_0_r.
        split; [reflexivity|]. split; [|reflexivity].
        unfold within. apply Z.ltb_lt in Hlt. lia.
      * right. exists (S i), key, d.
        replace (k + 2 * S i)%nat with (S (S k) + 2 * i)%nat by lia.
        repeat split; assumption.
    + intros [H|([|i] & key & d & Hi & Hw & ->)].
      * left. left. assumption.
      * injection Hi as -> ->. rewrite Nat.mul_0_r, Nat.add_0_r. left. right.
        reflexivity.
      * right. exists i, key, d.
        replace (S (S k) + 2 * i)%nat with (k + 2 * S i)%nat by lia.
        repeat split; assumption.
    + intros [H|(i & key & d & Hi & Hw & ->)].
      * left. assumption.
      * right. exists (S i), key, d.
        replace (k + 2 * S i)%nat with (S (S k) + 2 * i)%nat by lia.
        repeat split; assumption.
    + intros [H|([|i] & key & d & Hi & Hw & ->)].
      * left. assumption.
      * injection Hi as -> ->. rewrite Nat.mul_0_r, Nat.add_0_r in Hw.
        unfold within in Hw. apply Z.ltb_ge in Hlt. lia.
      * right. exists i, key, d.
        replace (S (S k) + 2 * i)%nat with (k + 2 * S i)%nat by lia.
        repeat split; assumption.
Qed.

(** The device listing has a fixed window of 60 seconds. *)
Lemma elem_of_showDevices (visit : list (string * Devices.Device)) (k : nat)
    (d' : Devices.Device) :
  (d' ∈ (Devices.showDevices clk seconds visit k).1)
  <-> (exists i key d,
         visit !! i = Some (key, d)
         /\ within (clk (S (k + 2 * i))) 60 (Devices.Detected d)
         /\ d' = Devices.with_Since d
                   (seconds (clk (k + 2 * i)%nat) (Devices.Detected d))).
Proof.
  unfold Devices.showDevices.
  pose proof (elem_of_showDevices_range visit [] k d') as H.
  destruct (Devices.showDevices_range clk seconds visit [] k) as [data k'].
  cbn [fst] in *. unfold Devices.byRSSI.
  rewrite (SliceStable_perm Devices.RSSI data), H.
  split; [|tauto]. intros [Hnil|Hex]; [inversion Hnil | assumption].
Qed.

(** C5 (as amended): for every caller-supplied window of [w] seconds
    between -9223372036 and 9223372036, the range in which [w] seconds are
    an int64 Duration, the listing of the beacon program returns exactly
    the entries whose detection lies within the trailing [w] seconds of the
    clock reading taken for them, in their order; an entry detected 90
    seconds before the query is left out of a window of 60 seconds and is
    kept in one of 120 seconds, as long as the readings taken during the
    query stay within 30 seconds of its start; and the window is 60
    seconds when the parameter [last] is absent. The listing of the device
    program takes no window from the caller: it keeps the devices detected
    within 60 seconds of the reading taken for them. *)
Theorem listing_within_window (w : Z) (beacons : list Beacons.Beacon) (k : nat) :
  -9223372036 <= w <= 9223372036 ->
  Beacons.filterByDate clk beacons w k
  = (live clk w k beacons, (k + length beacons)%nat)
  /\ (forall b, (b ∈ (Beacons.filterByDate clk beacons w k).1)
                <-> (exists i, beacons !! i = Some b
                       /\ within (clk (k + i)%nat) w (Beacons.Detected b)))
  /\ (forall now b,
        (forall i, (i < length beacons)%nat ->
                   now <= clk (k + i)%nat < now + 30 * 1000000000) ->
        b ∈ beacons -> Beacons.Detected b = now - 90 * 1000000000 ->
        (b ∉ (Beacons.filterByDate clk beacons 60 k).1)
        /\ (b ∈ (Beacons.filterByDate clk beacons 120 k).1))
  /\ Beacons.beaconsJSON clk "" beacons k
     = ([Beacons.SetHeader "Content-Type" "application/json";
         Beacons.Write (Beacons.BeaconsJSON (Beacons.filterByDate clk beacons 60 k).1)],
        (k + length beacons)%nat)
  /\ (forall visit d',
        (d' ∈ (Devices.showDevices clk seconds visit k).1)
        <-> (exists i key d,
               visit !! i = Some (key, d)
               /\ within (clk (S (k + 2 * i))) 60 (Devices.Detected d)
               /\ d' = Devices.with_Since d
                         (seconds (clk (k + 2 * i)%nat) (Devices.Detected d)))).
Proof.
  intros Hw.
  assert (Hf : forall w', -9223372036 <= w' <= 9223372036 ->
             Beacons.filterByDate clk beacons w' k
             = (live clk w' k beacons, (k + length beacons)%nat)).
  { intros w' Hw'. unfold Beacons.filterByDate.
    rewrite filterByDate_range_live by assumption. reflexivity. }
  split; [apply Hf; assumption|].
  split; [intros b; rewrite Hf by assumption; apply elem_of_live|].
  split; [|split].
  - intros now b Hclk Hin Hdet. rewrite !Hf by lia. cbn [fst].
    rewrite !elem_of_live. split.
    + intros (i & Hi & Hwin). unfold within in Hwin.
      specialize (Hclk i (lookup_lt_Some _ _ _ Hi)). lia.
    + apply list_elem_of_lookup in Hin as (i & Hi). exists i.
      split; [assumption|]. unfold within.
      specialize (Hclk i (lookup_lt_Some _ _ _ Hi)). lia.
  - unfold Beacons.beaconsJSON.
    change (String.eqb "" "") with true. cbv iota.
    change (Atoi "60") with (60, @None NumError). cbv iota beta.
    rewrite !Hf by lia. reflexivity.
  - intros visit d'. apply elem_of_showDevices.
Qed.

End Liveness.

Lemma listing_within_window_witness :
  let clk : clock := fun _ => 1000 * 1000000000 in
  let b := Beacons.mkBeacon "c4:7c:8d:6a:3e:01" (910 * 1000000000) "tag"
             "" "" "" (-60) "" "" "" "" "0" "Pi4" in
  Beacons.filterByDate clk [b] 60 0 = ([], 1%nat)
  /\ Beacons.filterByDate clk [b] 120 0 = ([b], 1%nat).
Proof.
  intros clk b.
  destruct (listing_within_window clk (fun _ _ => EmptyString) 60 [b] 0)
    as (H60 & _); [lia|].
  destruct (listing_within_window clk (fun _ _ => EmptyString) 120 [b] 0)
    as (H120 & _); [lia|].
  rewrite H60, H120. split; reflexivity.
Defined.

(** C5 (counterexample): 9223372037 seconds are more than an int64
    Duration holds; the product wraps around to a positive duration, and a
    beacon detected 90 seconds before the query, which lies within the
    trailing 9223372037 seconds, is not listed. *)
Lemma window_overflow_drops_live_entry :
  let clk : clock := fun _ => 1000 * 1000000000 in
  let b := Beacons.mkBeacon "c4:7c:8d:6a:3e:01" (910 * 1000000000) "tag"
             "" "" "" (-60) "" "" "" "" "0" "Pi4" in
  Atoi "9223372037" = (9223372037, None)
  /\ within (clk 0%nat) 9223372037 (Beacons.Detected b)
  /\ Beacons.filterByDate clk [b] 9223372037 0 = ([], 1%nat).
Proof.
  cbv zeta. split; [reflexivity|]. split; [unfold within; simpl; lia|].
  reflexivity.
Qed.

Section DeviceListing.

Variable clk : clock.
Variable seconds : Time -> Time -> string.

(** C7: the listing of the device program is the data kept by the loop,
    sorted by descending RSSI with a stable sort: the RSSI of each entry is
    greater than or equal to the RSSI of the entry that follows it, and the
    entries of equal RSSI are in the order they had before the sort. *)
Theorem device_listing_sorted_stable
    (visit : list (string * Devices.Device)) (k : nat) :
  let data := (Devices.showDevices_range clk seconds visit [] k).1 in
  let shown := (Devices.showDevices clk seconds visit k).1 in
  shown ≡ₚ data
  /\ Sorted (fun x y => Devices.RSSI y <= Devices.RSSI x) shown
  /\ (forall i x y, shown !! i = Some x -> shown !! S i = Some y ->
                    Devices.RSSI y <= Devices.RSSI x)
  /\ (forall r, filter (fun d => Devices.RSSI d = r) shown
                = filter (fun d => Devices.RSSI d = r) data).
Proof.
  unfold Devices.showDevices.
  destruct (Devices.showDevices_range clk seconds visit [] k) as [data k'].
  cbn [fst]. unfold Devices.byRSSI.
  pose proof (SliceStable_sorted Devices.RSSI data) as Hs.
  split; [apply (SliceStable_perm Devices.RSSI)|].
  split; [|split].
  - exact Hs.
  - intros i x y Hx Hy. exact (Sorted_adjacent Devices.RSSI _ i x y Hs Hx Hy).
  - intros r. apply (SliceStable_filter Devices.RSSI).
Qed.

End DeviceListing.

(* ===================================================================== *)
(** ** The scan controller and the query of the beacon program            *)
(* ===================================================================== *)

Section Controller.
Import Beacons.

Variable clk : clock.
Variable dur : nat.

(** C4: for the request [/beacons?last=abc] the handler writes the error
    page for the syntax error of strconv.Atoi and, as it does not return
    there, goes on to filter the beacons with the value 0 that Atoi
    returned and writes the JSON of the result into the same response. *)
Theorem non_numeric_last_still_lists (beacons : list Beacon) (k : nat) :
  beaconsJSON clk "abc" beacons k
  = ([Write (ErrorPage ErrSyntax);
      SetHeader "Content-Type" "application/json";
      Write (BeaconsJSON (filterByDate clk beacons 0 k).1)],
     (filterByDate clk beacons 0 k).2).
Proof.
  unfold beaconsJSON.
  change (String.eqb "abc" "") with false. cbv iota.
  change (Atoi "abc") with (0, Some ErrSyntax). cbv iota beta.
  destruct (filterByDate clk beacons 0 k) as [filtered k']. reflexivity.
Qed.

(** C6: a start request while the program is scanning ([stop] is false)
    and a stop request while it is stopped ([stop] is true) are answered
    with status 409 and leave the whole state as it was: the flag, the
    beacons, the scan goroutines; the process goes on. *)
Theorem misuse_is_reported_without_state_change
    (bs : list Beacon) (k : nat) (gs : list pc) :
  let scanning := mkWorld bs false k gs false in
  let stopped := mkWorld bs true k gs false in
  startScan scanning
  = ([WriteHeader 409; Write (Text "Already scanning.")], scanning)
  /\ stopScan stopped
     = ([WriteHeader 409; Write (Text "Already stopped.")], stopped)
  /\ step clk dur StartReq scanning = scanning
  /\ step clk dur StopReq stopped = stopped
  /\ exited (step clk dur StartReq scanning) = false
  /\ exited (step clk dur StopReq stopped) = false.
Proof. repeat split; reflexivity. Qed.

Lemma iter_tick_pc (n d : nat) :
  Nat.iter n tick_pc (InScan (mkCtx d false)) = InScan (mkCtx (d - n) false).
Proof.
  induction n as [|n IH]; simpl.
  - rewrite Nat.sub_0_r. reflexivity.
  - rewrite IH. simpl. do 3 f_equal. lia.
Qed.

(** The passing of [n] units of time. *)
Lemma exec_ticks (n : nat) :
  forall w, exited w = false ->
    exec clk dur (replicate n Tick) w
    = mkWorld (beacons w) (stop w) (ticks w) (Nat.iter n tick_pc <$> scans w) false.
Proof.
  induction n as [|n IH]; intros w Hw.
  - simpl. rewrite list_fmap_id. destruct w; simpl in *; subst; reflexivity.
  - cbn [replicate exec foldl]. unfold step at 2. rewrite Hw.
    change (foldl (fun w e => step clk dur e w) ?x ?es) with (exec clk dur es x).
    rewrite IH by reflexivity. cbn [beacons stop ticks scans].
    rewrite <- list_fmap_compose. f_equal. apply list_fmap_ext.
    intros j p _. simpl. clear. induction n as [|n IHn]; [reflexivity|].
    simpl. rewrite IHn. reflexivity.
Qed.

Lemma exec_app (es1 es2 : list event) (w : World) :
  exec clk dur (es1 ++ es2) w = exec clk dur es2 (exec clk dur es1 w).
Proof. unfold exec. apply foldl_app. Qed.

(** A scheduled goroutine takes the step of [scan_step]. *)
Lemma step_Run (w : World) (i : nat) (p : pc) :
  exited w = false -> scans w !! i = Some p ->
  step clk dur (Run i) w
  = mkWorld (beacons w) (scan_step dur p (stop w)).2 (ticks w)
            (<[i := (scan_step dur p (stop w)).1]> (scans w)) false.
Proof.
  intros Hw Hp. unfold step. rewrite Hw, Hp.
  destruct (scan_step dur p (stop w)). reflexivity.
Qed.

(** C8 (as amended): a stop request while scanning sets the flag and does
    nothing else: the context of the running session is not cancelled. The
    session goes on until its timeout has elapsed; the scan loop, which
    tests the flag between two sessions only, then leaves and returns. *)
Theorem stop_waits_for_session_timeout (w : World) (i d : nat) :
  exited w = false -> stop w = false ->
  scans w !! i = Some (InScan (mkCtx d false)) ->
  let w' := step clk dur StopReq w in
  stop w' = true /\ scans w' = scans w /\ beacons w' = beacons w
  /\ (forall n, (n < d)%nat ->
        scans (exec clk dur (replicate n Tick ++ [Run i]) w') !! i
        = Some (InScan (mkCtx (d - n) false)))
  /\ (let w_end := exec clk dur (replicate d Tick ++ [Run i; Run i; Run i]) w' in
      scans w_end !! i = Some Returned /\ stop w_end = true).
Proof.
  intros Hex Hstop Hi w'.
  assert (Hw' : w' = mkWorld (beacons w) true (ticks w) (scans w) (exited w)).
  { unfold w', step, stopScan. rewrite Hex, Hstop. reflexivity. }
  rewrite Hw'. cbn [stop scans beacons].
  split; [reflexivity|]. split; [reflexivity|]. split; [reflexivity|].
  assert (Hlen : (i < length (scans w))%nat) by (eapply lookup_lt_Some; eassumption).
  assert (Hticks : forall n,
             (Nat.iter n tick_pc <$> scans w) !! i = Some (InScan (mkCtx (d - n) false))).
  { intros n. rewrite list_lookup_fmap, Hi. simpl. rewrite iter_tick_pc. reflexivity. }
  split.
  - intros n Hn. rewrite exec_app, exec_ticks by assumption.
    cbn [exec foldl beacons stop ticks scans].
    erewrite step_Run; [|reflexivity|cbn [scans]; apply Hticks].
    cbn [scans scan_step]. unfold ctx_Err. cbn [canceled deadline].
    replace (d - n =? 0)%nat with false by (symmetry; apply Nat.eqb_neq; lia).
    cbn [fst]. apply list_lookup_insert_eq. rewrite length_fmap. assumption.
  - rewrite exec_app, exec_ticks by assumption.
    cbn [exec foldl beacons stop ticks scans].
    set (gs := Nat.iter d tick_pc <$> scans w).
    assert (H0 : gs !! i = Some (InScan (mkCtx 0 false))).
    { unfold gs. rewrite Hticks, Nat.sub_diag. reflexivity. }
    assert (Hgs : (i < length gs)%nat) by (unfold gs; rewrite length_fmap; assumption).
    rewrite (step_Run (mkWorld (beacons w) true (ticks w) gs false) i _ eq_refl H0).
    cbn [beacons stop ticks scans].
    change (scan_step dur (InScan (mkCtx 0 false)) true) with (AtLoopTest, true).
    cbn [fst snd].
    rewrite (step_Run (mkWorld (beacons w) true (ticks w) (<[i:=AtLoopTest]> gs) false)
               i AtLoopTest eq_refl (list_lookup_insert_eq gs i AtLoopTest Hgs)).
    cbn [beacons stop ticks scans].
    change (scan_step dur AtLoopTest true) with (AfterLoop, true). cbn [fst snd].
    rewrite list_insert_insert_eq.
    rewrite (step_Run (mkWorld (beacons w) true (ticks w) (<[i:=AfterLoop]> gs) false)
               i AfterLoop eq_refl (list_lookup_insert_eq gs i AfterLoop Hgs)).
    cbn [beacons stop ticks scans scan_step fst snd].
    split; [|reflexivity].
    rewrite list_insert_insert_eq. apply list_lookup_insert_eq. assumption.
Qed.

End Controller.

Lemma stop_waits_for_session_timeout_witness :
  let clk : clock := fun n => Z.of_nat n in
  let w := Beacons.mkWorld [] false 0 [Beacons.InScan (Beacons.mkCtx 5 false)] false in
  let w' := Beacons.step clk 5 Beacons.StopReq w in
  Beacons.stop w' = true /\ Beacons.scans w' = Beacons.scans w.
Proof.
  intros clk w.
  destruct (stop_waits_for_session_timeout clk 5 w 0 5 eq_refl eq_refl eq_refl)
    as (H1 & H2 & _).
  split; assumption.
Defined.

(** C8 (counterexample): with sessions of 5 units of time, a stop request
    that arrives while a session runs leaves the session open: its context
    is not cancelled, 4 units of time later the goroutine is still inside
    the scan, and it leaves only when the 5 units have elapsed. *)
Lemma stop_does_not_end_session :
  let clk : clock := fun n => Z.of_nat n in
  let w := Beacons.exec clk 5
             [Beacons.StartReq; Beacons.Run 0; Beacons.Run 0; Beacons.StopReq]
             Beacons.init in
  Beacons.stop w = true
  /\ Beacons.scans w = [Beacons.InScan (Beacons.mkCtx 5 false)]
  /\ Beacons.scans
       (Beacons.exec clk 5
          [Beacons.Tick; Beacons.Tick; Beacons.Tick; Beacons.Tick; Beacons.Run 0] w)
     = [Beacons.InScan (Beacons.mkCtx 1 false)]
  /\ Beacons.scans
       (Beacons.exec clk 5
          [Beacons.Tick; Beacons.Tick; Beacons.Tick; Beacons.Tick; Beacons.Tick;
           Beacons.Run 0; Beacons.Run 0; Beacons.Run 0] w)
     = [Beacons.Returned].
Proof. cbv zeta. repeat split; reflexivity. Qed.

(* ===================================================================== *)
(** ** Further properties of the beacon handler                           *)
(* ===================================================================== *)

Section BeaconHandler.
Import Beacons.

Variable clk : clock.

(** Indexing a slice reads its elements, and panics past the last one. *)
Lemma index_elems (s : slice) (i : nat) :
  wf_slice s ->
  index s (Z.of_nat i)
  = match elems s !! i with
    | Some b => Ok b
    | None => Panic IndexOutOfRange
    end.
Proof.
  intros Hwf. destruct (decide (i < slen s)%nat) as [Hi|Hi].
  - destruct (index_lookup s i Hwf Hi) as (b & -> & ->). reflexivity.
  - rewrite (proj2 (lookup_ge_None (elems s) i)) by (rewrite elems_length by assumption; lia).
    unfold index. destruct (decide _) as [Hd|_]; [lia | reflexivity].
Qed.

Lemma isRadioland_signature (s : ble.ServiceData) :
  wf_slice (ble.UUID s) ->
  isRadioland s
  = match signature s with
    | Some c => Ok c
    | None => Panic IndexOutOfRange
    end.
Proof.
  intros Hwf. unfold isRadioland, signature.
  change 0 with (Z.of_nat 0). change 1 with (Z.of_nat 1).
  rewrite !index_elems by assumption.
  destruct (elems (ble.UUID s)) as [|b0 [|b1 rest]]; cbn; try reflexivity;
    destruct (Byte.eqb b0 x03); reflexivity.
Qed.

(** X1: the signature check of advHandler panics exactly on an empty UUID
    and on the one-byte UUID 0x03; on a UUID that starts with another byte
    it answers no without reading the second byte, and on one that starts
    with 0x03 it compares the second byte to 0x18. *)
Theorem signature_check_outcomes (s : ble.ServiceData) :
  wf_slice (ble.UUID s) ->
  (isRadioland s = Panic IndexOutOfRange
   <-> (elems (ble.UUID s) = [] \/ elems (ble.UUID s) = [x03]))
  /\ (forall b0 rest, elems (ble.UUID s) = b0 :: rest -> b0 <> x03 ->
        isRadioland s = Ok false)
  /\ (forall b1 rest, elems (ble.UUID s) = x03 :: b1 :: rest ->
        isRadioland s = Ok (Byte.eqb b1 x18)).
Proof.
  intros Hwf. rewrite (isRadioland_signature s Hwf). unfold signature.
  split; [|split].
  - destruct (elems (ble.UUID s)) as [|b0 [|b1 rest]].
    + split; [left; reflexivity | reflexivity].
    + destruct (Byte.eqb b0 x03) eqn:E.
      * apply Byte.byte_dec_bl in E as ->. split; [right; reflexivity | reflexivity].
      * apply Byte.eqb_false in E.
        split; [discriminate|]. intros [H|H]; [discriminate | congruence].
    + destruct (Byte.eqb b0 x03);
        (split; [discriminate | intros [H|H]; discriminate]).
  - intros b0 rest -> Hne.
    destruct (Byte.eqb b0 x03) eqn:E; [|reflexivity].
    apply Byte.byte_dec_bl in E. contradiction.
  - intros b1 rest ->. reflexivity.
Qed.

Lemma signature_check_outcomes_witness :
  isRadioland (ble.mkServiceData (of_bytes [x0f]) (of_bytes [])) = Ok false
  /\ isRadioland (ble.mkServiceData (of_bytes [x03; x18; x00]) (of_bytes []))
     = Ok true.
Proof.
  destruct (signature_check_outcomes
              (ble.mkServiceData (of_bytes [x0f]) (of_bytes []))
              (wf_of_bytes _)) as (_ & H1 & _).
  destruct (signature_check_outcomes
              (ble.mkServiceData (of_bytes [x03; x18; x00]) (of_bytes []))
              (wf_of_bytes _)) as (_ & _ & H2).
  split.
  - apply (H1 x0f []); [reflexivity | discriminate].
  - apply (H2 x18 [x00]). reflexivity.
Defined.

(** X2: each getter returns exactly when the capacity of the manufacturer
    data reaches its upper offset (20, 23 and 26), and getBatteryLevel
    exactly when the data is not empty; short of that they panic. *)
Theorem getters_return_iff (md : slice) :
  wf_slice md ->
  (returns (getUUID md) <-> (20 <= cap md)%nat)
  /\ (returns (getMajor md) <-> (23 <= cap md)%nat)
  /\ (returns (getMinor md) <-> (26 <= cap md)%nat)
  /\ (returns (getBatteryLevel md) <-> (1 <= slen md)%nat).
Proof.
  intros Hwf. unfold returns, getUUID, getMajor, getMinor, getBatteryLevel, reslice.
  repeat split;
    try (destruct (decide _) as [Hd|Hd]; cbn;
         [intros _; lia | intros [? ?]; discriminate]);
    try (intros Hcap; destruct (decide _) as [Hd|Hd]; cbn;
         [eexists; reflexivity | exfalso; apply Hd; lia]).
  - intros [b Hb]. destruct (decide (1 <= slen md)%nat) as [|Hn]; [assumption|].
    exfalso. unfold index in Hb.
    destruct (decide _) as [Hd|_]; [lia | discriminate].
  - intros Hlen. destruct (index_last md Hwf Hlen) as (b & _ & ->).
    eexists. reflexivity.
Qed.

Lemma getters_return_iff_witness :
  returns (getUUID (mkSlice (replicate 32 x00) 0))
  /\ ~ returns (getBatteryLevel (mkSlice (replicate 32 x00) 0)).
Proof.
  destruct (getters_return_iff (mkSlice (replicate 32 x00) 0)) as (H1 & _ & _ & H4).
  - unfold wf_slice, cap. simpl. lia.
  - split.
    + apply H1. unfold cap. simpl. lia.
    + intros H. apply H4 in H. simpl in H. lia.
Defined.

Variable dur : nat.

(** The record built for a matching entry when the manufacturer data has
    its 26 bytes. *)
Lemma mkSighting_ok (a : ble.Adv.t) (s : ble.ServiceData) (now : Time) :
  wf_slice (ble.Adv.ManufacturerData a) ->
  (26 <= slen (ble.Adv.ManufacturerData a))%nat ->
  exists b, mkSighting a s now = Ok b
    /\ Detected b = now
    /\ ServiceUUID b = EncodeToString (elems (ble.UUID s))
    /\ ServiceData b = EncodeToString (elems (ble.Data s))
    /\ built_from a b.
Proof.
  intros Hwf Hlen.
  destruct (getters_ok _ Hwf Hlen) as (Hu & Hma & Hmi & lb & Hlb & Hba).
  eexists. split.
  - unfold mkSighting. rewrite Hu, Hma, Hmi, Hba. reflexivity.
  - unfold built_from. cbn. repeat split.
    exists lb. split; [assumption | reflexivity].
Qed.

Lemma advHandler_range_matches (a : ble.Adv.t) :
  wf_slice (ble.Adv.ManufacturerData a) ->
  (26 <= slen (ble.Adv.ManufacturerData a))%nat ->
  forall svc,
    Forall (fun s => wf_slice (ble.UUID s) /\ signature s <> None) svc ->
    forall beacons k,
    exists new,
      advHandler_range clk a svc beacons k = Ok (beacons ++ new, (k + length new)%nat)
      /\ length new = length (filter radioland svc)
      /\ Detected <$> new = clk <$> seq k (length new)
      /\ ServiceUUID <$> new
         = (fun s => EncodeToString (elems (ble.UUID s))) <$> filter radioland svc
      /\ ServiceData <$> new
         = (fun s => EncodeToString (elems (ble.Data s))) <$> filter radioland svc
      /\ Forall (built_from a) new.
Proof.
  intros Hwf Hlen svc. induction svc as [|s rest IH]; intros Hsvc beacons k.
  - exists []. cbn. rewrite app_nil_r, Nat.add_0_r. repeat split; constructor.
  - apply Forall_cons in Hsvc as [[Hs Hsig] Hrest].
    cbn [advHandler_range]. rewrite (isRadioland_signature s Hs).
    destruct (signature s) as [[|]|] eqn:Esig; [| |contradiction].
    + destruct (mkSighting_ok a s (clk k) Hwf Hlen)
        as (b & Hmk & Hbd & Hbu & Hbs & Hb).
      cbn [mbind outcome_bind]. rewrite Hmk. cbn [mbind outcome_bind].
      destruct (IH Hrest (beacons ++ [b]) (S k))
        as (new & Hrun & Hn & Hd & Hu & Hsd & Hall).
      exists (b :: new). rewrite Hrun, <- app_assoc.
      rewrite (filter_cons_True radioland s rest Esig).
      split; [cbn; do 2 f_equal; lia|].
      split; [cbn; f_equal; assumption|].
      split; [cbn; f_equal; assumption|].
      split; [cbn; f_equal; assumption|].
      split; [cbn; f_equal; assumption|].
      constructor; assumption.
    + cbn [mbind outcome_bind].
      rewrite (filter_cons_False radioland s rest)
        by (unfold radioland; rewrite Esig; discriminate).
      exact (IH Hrest beacons k).
Qed.

(** X3: when the manufacturer data has at least 26 bytes and the signature
    check is in bounds on every service data entry, advHandler returns and
    appends one beacon per entry that carries the Radioland UUID, in the
    order of the entries: each holds the address, name and RSSI of the
    advertisement, the fields decoded from the manufacturer data and the
    hex of its own entry, and the i-th is stamped with the i-th reading of
    the clock taken by the call. *)
Theorem advHandler_appends_one_beacon_per_match
    (a : ble.Adv.t) (beacons : list Beacon) (k : nat) :
  wf_slice (ble.Adv.ManufacturerData a) ->
  (26 <= slen (ble.Adv.ManufacturerData a))%nat ->
  Forall (fun s => wf_slice (ble.UUID s) /\ signature s <> None)
         (ble.Adv.ServiceData a) ->
  exists new,
    advHandler clk a beacons k = Ok (beacons ++ new, (k + length new)%nat)
    /\ length new = length (filter radioland (ble.Adv.ServiceData a))
    /\ Detected <$> new = clk <$> seq k (length new)
    /\ ServiceUUID <$> new
       = (fun s => EncodeToString (elems (ble.UUID s)))
           <$> filter radioland (ble.Adv.ServiceData a)
    /\ ServiceData <$> new
       = (fun s => EncodeToString (elems (ble.Data s)))
           <$> filter radioland (ble.Adv.ServiceData a)
    /\ Forall (built_from a) new.
Proof.
  intros Hwf Hlen Hsvc. unfold advHandler.
  destruct (decide _) as [_|Hn].
  - apply advHandler_range_matches; assumption.
  - destruct (ble.Adv.ServiceData a) as [|s rest]; [|cbn in Hn; lia].
    exists []. cbn. rewrite app_nil_r, Nat.add_0_r. repeat split; constructor.
Qed.

Lemma advHandler_range_ignores (a : ble.Adv.t) (svc : list ble.ServiceData) :
  Forall (fun s => wf_slice (ble.UUID s) /\ signature s = Some false) svc ->
  forall beacons k, advHandler_range clk a svc beacons k = Ok (beacons, k).
Proof.
  induction svc as [|s rest IH]; intros Hsvc beacons k; [reflexivity|].
  apply Forall_cons in Hsvc as [[Hs Hsig] Hrest].
  cbn [advHandler_range]. rewrite (isRadioland_signature s Hs), Hsig.
  cbn [mbind outcome_bind]. apply IH. assumption.
Qed.

(** X4: an advertisement none of whose service data entries carries the
    Radioland UUID is left aside: advHandler returns with the beacons and
    the clock untouched, whatever the manufacturer data, which it never
    looks at. *)
Theorem advHandler_ignores_other_services
    (a : ble.Adv.t) (beacons : list Beacon) (k : nat) :
  Forall (fun s => wf_slice (ble.UUID s) /\ signature s = Some false)
         (ble.Adv.ServiceData a) ->
  advHandler clk a beacons k = Ok (beacons, k).
Proof.
  intros Hsvc. unfold advHandler. destruct (decide _); [|reflexivity].
  apply advHandler_range_ignores. assumption.
Qed.

Lemma mkSighting_short (a : ble.Adv.t) (s : ble.ServiceData) (now : Time) :
  (cap (ble.Adv.ManufacturerData a) < 26)%nat ->
  mkSighting a s now = Panic SliceBoundsOutOfRange.
Proof.
  intros Hcap. unfold mkSighting, getUUID, getMajor, getMinor, reslice.
  destruct (decide (0 <= 4 /\ 4 <= 20 /\ 20 <= _)); [|reflexivity].
  cbn [mbind outcome_bind mret outcome_ret].
  destruct (decide (0 <= 21 /\ 21 <= 23 /\ 23 <= _)); [|reflexivity].
  cbn [mbind outcome_bind mret outcome_ret].
  destruct (decide (0 <= 24 /\ 24 <= 26 /\ 26 <= _)) as [Hd|]; [lia|reflexivity].
Qed.

(** X5: when an entry carries the Radioland UUID, the entries before it do
    not, and the capacity of the manufacturer data is below 26, advHandler
    panics with a slice bounds error; delivered while a scan session is
    open, such an advertisement ends the process. *)
Theorem advHandler_panics_on_short_payload
    (a : ble.Adv.t) (pre rest : list ble.ServiceData) (s : ble.ServiceData)
    (beacons : list Beacon) (k : nat) :
  ble.Adv.ServiceData a = pre ++ s :: rest ->
  Forall (fun s => wf_slice (ble.UUID s) /\ signature s = Some false) pre ->
  wf_slice (ble.UUID s) -> radioland s ->
  (cap (ble.Adv.ManufacturerData a) < 26)%nat ->
  advHandler clk a beacons k = Panic SliceBoundsOutOfRange
  /\ (forall w, exited w = false -> existsb in_scan (scans w) = true ->
        exited (step clk dur (Advert a) w) = true).
Proof.
  intros Hsvc Hpre Hs Hsig Hcap.
  assert (Hrun : forall bs j, advHandler clk a bs j = Panic SliceBoundsOutOfRange).
  { intros bs j. unfold advHandler. rewrite Hsvc.
    destruct (decide _) as [_|Hn]; [|rewrite length_app in Hn; cbn in Hn; lia].
    clear Hsvc. revert bs j. induction pre as [|p pre IH]; intros bs j.
    - cbn [app advHandler_range]. rewrite (isRadioland_signature s Hs), Hsig.
      cbn [mbind outcome_bind]. rewrite mkSighting_short by assumption. reflexivity.
    - apply Forall_cons in Hpre as [[Hp Hpsig] Hpre].
      cbn [app advHandler_range]. rewrite (isRadioland_signature p Hp), Hpsig.
      cbn [mbind outcome_bind]. apply IH. assumption. }
  split; [apply Hrun|].
  intros w Hex Hscan. unfold step. rewrite Hex, Hscan, Hrun. reflexivity.
Qed.

End BeaconHandler.

Lemma advHandler_panics_on_short_payload_witness :
  let a := ble.Adv.mk "c4:7c:8d:6a:3e:01" "tag" (-60) (of_bytes [x4c; x00])
             [ble.mkServiceData (of_bytes [x0f; x18]) (of_bytes []);
              ble.mkServiceData (of_bytes [x03; x18]) (of_bytes [])]
             (of_bytes []) (of_bytes []) in
  Beacons.advHandler (fun n => Z.of_nat n) a [] 0 = Panic SliceBoundsOutOfRange.
Proof.
  intros a.
  refine (proj1 (advHandler_panics_on_short_payload (fun n => Z.of_nat n) 5 a
            [ble.mkServiceData (of_bytes [x0f; x18]) (of_bytes [])] []
            (ble.mkServiceData (of_bytes [x03; x18]) (of_bytes []))
            [] 0 eq_refl _ _ _ _)).
  - repeat constructor.
  - apply wf_of_bytes.
  - reflexivity.
  - unfold cap. simpl. lia.
Defined.

Lemma advHandler_ignores_other_services_witness :
  let a := ble.Adv.mk "c4:7c:8d:6a:3e:01" "tag" (-60) (of_bytes [])
             [ble.mkServiceData (of_bytes [x0f]) (of_bytes [])]
             (of_bytes []) (of_bytes []) in
  Beacons.advHandler (fun n => Z.of_nat n) a [] 0 = Ok ([], 0%nat).
Proof.
  intros a. apply (advHandler_ignores_other_services (fun n => Z.of_nat n) a [] 0).
  repeat constructor.
Defined.

Lemma advHandler_appends_one_beacon_per_match_witness :
  let a := ble.Adv.mk "c4:7c:8d:6a:3e:01" "tag" (-60)
             (of_bytes (replicate 27 x00))
             [ble.mkServiceData (of_bytes [x03; x18]) (of_bytes []);
              ble.mkServiceData (of_bytes [x0f]) (of_bytes []);
              ble.mkServiceData (of_bytes [x03; x18]) (of_bytes [x64])]
             (of_bytes []) (of_bytes []) in
  exists new, Beacons.advHandler (fun n => Z.of_nat n) a [] 0 = Ok (new, 2%nat)
              /\ length new = 2%nat.
Proof.
  intros a.
  destruct (advHandler_appends_one_beacon_per_match (fun n => Z.of_nat n) a [] 0)
    as (new & Hrun & Hlen & _).
  - apply wf_of_bytes.
  - simpl. lia.
  - repeat constructor; try apply wf_of_bytes; try discriminate.
  - exists new. change (length (filter radioland (ble.Adv.ServiceData a)))
      with 2%nat in Hlen.
    rewrite Hlen in Hrun. split; assumption.
Defined.

(* ===================================================================== *)
(** ** Further properties of the beacon listing                           *)
(* ===================================================================== *)

Section BeaconListing.
Import Beacons.

Variable clk : clock.

Lemma filterByDate_range_sublist (sec : Z) (bs : list Beacon) :
  forall (results : list Beacon) (k : nat),
  exists kept,
    filterByDate_range clk bs sec results k = (results ++ kept, (k + length bs)%nat)
    /\ kept `sublist_of` bs.
Proof.
  induction bs as [|b bs IH]; intros results k.
  - exists []. cbn. rewrite app_nil_r, Nat.add_0_r. split; [reflexivity|constructor].
  - cbn [filterByDate_range]. destruct (Time_Before _ _).
    + destruct (IH (results ++ [b]) (S k)) as (kept & -> & Hsub).
      exists (b :: kept). rewrite <- app_assoc. cbn.
      split; [f_equal; lia | constructor; assumption].
    + destruct (IH results (S k)) as (kept & -> & Hsub).
      exists kept. cbn. split; [f_equal; lia | constructor; assumption].
Qed.

(** X6: whatever the window, also one that overflows or is negative,
    filterByDate returns beacons of the list it was given, once each and in
    their order, and reads the clock once per beacon of that list. *)
Theorem filterByDate_keeps_order (sec : Z) (beacons : list Beacon) (k : nat) :
  (filterByDate clk beacons sec k).1 `sublist_of` beacons
  /\ (filterByDate clk beacons sec k).2 = (k + length beacons)%nat.
Proof.
  unfold filterByDate.
  destruct (filterByDate_range_sublist sec beacons [] k) as (kept & -> & Hsub).
  split; [assumption | reflexivity].
Qed.

Lemma live_mono (w1 w2 : Z) (bs : list Beacon) :
  w1 <= w2 -> forall k, live clk w1 k bs `sublist_of` live clk w2 k bs.
Proof.
  intros Hw. induction bs as [|b bs IH]; intros k.
  - constructor.
  - rewrite !live_cons. apply sublist_app; [|apply IH].
    destruct (decide (within (clk k) w1 _)) as [H1|H1];
      destruct (decide (within (clk k) w2 _)) as [H2|H2];
      try reflexivity; try (repeat constructor).
    exfalso. apply H2. unfold within in *. lia.
Qed.

(** X7: a wider window lists more: for two windows that fit a Duration,
    the listing for the smaller one is contained, in order, in the listing
    for the larger one taken with the same clock readings. *)
Theorem filterByDate_monotone (w1 w2 : Z) (beacons : list Beacon) (k : nat) :
  -9223372036 <= w1 -> w1 <= w2 -> w2 <= 9223372036 ->
  (filterByDate clk beacons w1 k).1 `sublist_of` (filterByDate clk beacons w2 k).1.
Proof.
  intros H1 H12 H2. unfold filterByDate.
  rewrite !filterByDate_range_live by lia. cbn [fst app].
  apply live_mono. assumption.
Qed.

Lemma live_nonpositive (w : Z) (bs : list Beacon) (k : nat) :
  w <= 0 ->
  (forall i b, bs !! i = Some b -> Detected b <= clk (k + i)%nat) ->
  live clk w k bs = [].
Proof.
  intros Hw Hpast. apply elem_of_nil_inv. intros b Hb.
  apply elem_of_live in Hb as (i & Hi & Hin).
  specialize (Hpast i b Hi). unfold within in Hin. lia.
Qed.

(** X8: for a parameter [last] that Atoi rejects with a syntax error, and
    beacons none of which is stamped later than the clock reading taken for
    it, beaconsJSON answers with the error page followed by the header and
    the JSON of an empty listing: the value 0 that comes with the error is
    used as the window. *)
Theorem non_numeric_last_lists_nothing
    (lastParam : string) (beacons : list Beacon) (k : nat) :
  lastParam <> ""%string ->
  Atoi lastParam = (0, Some ErrSyntax) ->
  (forall i b, beacons !! i = Some b -> Detected b <= clk (k + i)%nat) ->
  beaconsJSON clk lastParam beacons k
  = ([Write (ErrorPage ErrSyntax);
      SetHeader "Content-Type" "application/json";
      Write (BeaconsJSON [])],
     (k + length beacons)%nat).
Proof.
  intros Hne Hatoi Hpast. unfold beaconsJSON, filterByDate.
  rewrite (proj2 (String.eqb_neq lastParam "") Hne), Hatoi.
  rewrite filterByDate_range_live by lia.
  rewrite live_nonpositive by (assumption || lia). reflexivity.
Qed.

End BeaconListing.

Lemma filterByDate_monotone_witness :
  let clk : clock := fun _ => 1000 * 1000000000 in
  let b := Beacons.mkBeacon "c4:7c:8d:6a:3e:01" (910 * 1000000000) "tag"
             "" "" "" (-60) "" "" "" "" "0" "Pi4" in
  (Beacons.filterByDate clk [b] 60 0).1
    `sublist_of` (Beacons.filterByDate clk [b] 120 0).1.
Proof.
  intros clk b. apply (filterByDate_monotone clk 60 120 [b] 0); lia.
Defined.

Lemma non_numeric_last_lists_nothing_witness :
  let clk : clock := fun _ => 1000 * 1000000000 in
  let b := Beacons.mkBeacon "c4:7c:8d:6a:3e:01" (910 * 1000000000) "tag"
             "" "" "" (-60) "" "" "" "" "0" "Pi4" in
  Beacons.beaconsJSON clk "12s" [b] 0
  = ([Beacons.Write (Beacons.ErrorPage ErrSyntax);
      Beacons.SetHeader "Content-Type" "application/json";
      Beacons.Write (Beacons.BeaconsJSON [])], 1%nat).
Proof.
  intros clk b.
  apply (non_numeric_last_lists_nothing clk "12s" [b] 0).
  - discriminate.
  - reflexivity.
  - intros [|i] b' Hb; [|destruct i; discriminate].
    injection Hb as <-. unfold clk. simpl. lia.
Defined.

(* ===================================================================== *)
(** ** Further properties of the scan controller                          *)
(* ===================================================================== *)

Section ScanLoop.
Import Beacons.

Variable clk : clock.
Variable dur : nat.

Lemma exec_cons (e : event) (es : list event) (w : World) :
  exec clk dur (e :: es) w = exec clk dur es (step clk dur e w).
Proof. reflexivity. Qed.

(** What a step of the [i]-th goroutine changes. *)
Lemma step_Run_facts (w : World) (i : nat) (p : pc) :
  exited w = false -> scans w !! i = Some p ->
  let w' := step clk dur (Run i) w in
  exited w' = false /\ beacons w' = beacons w
  /\ stop w' = (scan_step dur p (stop w)).2
  /\ scans w' !! i = Some (scan_step dur p (stop w)).1
  /\ length (scans w') = length (scans w)
  /\ (forall j, j <> i -> scans w' !! j = scans w !! j).
Proof.
  intros Hex Hp w'. unfold w'. rewrite (step_Run clk dur w i p Hex Hp).
  cbn [exited beacons stop scans].
  repeat split.
  - apply list_lookup_insert_eq. eapply lookup_lt_Some. eassumption.
  - apply length_insert.
  - intros j Hj. apply list_lookup_insert_ne. congruence.
Qed.

Lemma ticks_facts (w : World) (n : nat) :
  exited w = false ->
  let w' := exec clk dur (replicate n Tick) w in
  exited w' = false /\ beacons w' = beacons w /\ stop w' = stop w
  /\ length (scans w') = length (scans w)
  /\ (forall j, scans w' !! j = Nat.iter n tick_pc <$> scans w !! j).
Proof.
  intros Hex w'. unfold w'. rewrite (exec_ticks clk dur n w Hex).
  cbn [exited beacons stop scans]. repeat split.
  - apply length_fmap.
  - intros j. apply list_lookup_fmap.
Qed.

Lemma iter_tick_pc_AtLoopTest (n : nat) : Nat.iter n tick_pc AtLoopTest = AtLoopTest.
Proof. induction n as [|n IH]; [reflexivity|]. simpl. rewrite IH. reflexivity. Qed.

Lemma step_StartReq_facts (w : World) :
  exited w = false -> stop w = true ->
  let w' := step clk dur StartReq w in
  exited w' = false /\ beacons w' = beacons w /\ stop w' = true
  /\ scans w' = scans w ++ [AtEntry].
Proof.
  intros Hex Hstop. unfold step, startScan. rewrite Hex, Hstop. cbn.
  repeat split; assumption.
Qed.

Lemma step_StopReq_facts (w : World) :
  exited w = false -> stop w = false ->
  let w' := step clk dur StopReq w in
  exited w' = false /\ beacons w' = beacons w /\ stop w' = true
  /\ scans w' = scans w.
Proof.
  intros Hex Hstop. unfold step, stopScan. rewrite Hex, Hstop. cbn.
  repeat split; assumption.
Qed.

Lemma step_Signal_facts (w : World) :
  exited w = false ->
  let w' := step clk dur Signal w in
  exited w' = false /\ beacons w' = beacons w /\ stop w' = stop w
  /\ (forall j, scans w' !! j = signal_pc <$> scans w !! j).
Proof.
  intros Hex. unfold step. rewrite Hex. cbn. repeat split.
  intros j. apply list_lookup_fmap.
Qed.

(** X9: a start request in the stopped state is accepted and adds a scan
    goroutine; the flag is still set when the handler returns, and it is
    the goroutine that clears it with its first step and opens a session of
    the configured duration with its second. *)
Theorem start_launches_scan_loop (w : World) :
  exited w = false -> stop w = true ->
  let i := length (scans w) in
  (startScan w).1 = [Write (Text "Request to start scanning accepted.")]
  /\ stop (step clk dur StartReq w) = true
  /\ (let w' := exec clk dur [StartReq; Run i; Run i] w in
      stop w' = false /\ exited w' = false /\ beacons w' = beacons w
      /\ scans w' !! i = Some (InScan (mkCtx dur false))
      /\ (forall j, j <> i -> scans w' !! j = (scans w ++ [AtEntry]) !! j)).
Proof.
  intros Hex Hstop i.
  destruct (step_StartReq_facts w Hex Hstop) as (E1 & B1 & S1 & G1).
  split; [unfold startScan; rewrite Hstop; reflexivity|].
  split; [assumption|].
  rewrite !exec_cons. cbn [exec foldl].
  set (w1 := step clk dur StartReq w) in *.
  assert (H1 : scans w1 !! i = Some AtEntry).
  { rewrite G1. apply list_lookup_middle. reflexivity. }
  destruct (step_Run_facts w1 i AtEntry E1 H1) as (E2 & B2 & S2 & G2 & _ & O2).
  set (w2 := step clk dur (Run i) w1) in *. cbn in S2, G2.
  destruct (step_Run_facts w2 i AtLoopTest E2 G2) as (E3 & B3 & S3 & G3 & _ & O3).
  set (w3 := step clk dur (Run i) w2) in *. rewrite S2 in S3, G3. cbn in S3, G3.
  split; [assumption|]. split; [assumption|].
  split; [congruence|]. split; [assumption|].
  intros j Hj. rewrite O3, O2, G1 by assumption. reflexivity.
Qed.

(** X10: startScan does not set the flag itself, so a second start request
    that arrives before the first goroutine has run is accepted as well,
    and two scan loops end up scanning side by side. *)
Theorem double_start_runs_two_loops (w : World) :
  exited w = false -> stop w = true ->
  let i := length (scans w) in
  (startScan (step clk dur StartReq w)).1
  = [Write (Text "Request to start scanning accepted.")]
  /\ (let w' := exec clk dur [StartReq; StartReq; Run i; Run i; Run (S i); Run (S i)] w in
      stop w' = false /\ exited w' = false
      /\ scans w' !! i = Some (InScan (mkCtx dur false))
      /\ scans w' !! S i = Some (InScan (mkCtx dur false))).
Proof.
  intros Hex Hstop i.
  destruct (step_StartReq_facts w Hex Hstop) as (E1 & B1 & S1 & G1).
  set (w1 := step clk dur StartReq w) in *.
  split; [unfold startScan; rewrite S1; reflexivity|].
  destruct (step_StartReq_facts w1 E1 S1) as (E2 & B2 & S2 & G2).
  rewrite !exec_cons. cbn [exec foldl]. fold w1.
  set (w2 := step clk dur StartReq w1) in *.
  assert (Hi : scans w2 !! i = Some AtEntry).
  { rewrite G2, G1, <- app_assoc. apply list_lookup_middle. reflexivity. }
  assert (Hsi : scans w2 !! S i = Some AtEntry).
  { rewrite G2. apply list_lookup_middle. rewrite G1, length_app. cbn. lia. }
  destruct (step_Run_facts w2 i AtEntry E2 Hi) as (E3 & _ & S3 & G3 & _ & O3).
  set (w3 := step clk dur (Run i) w2) in *. cbn in S3, G3.
  destruct (step_Run_facts w3 i AtLoopTest E3 G3) as (E4 & _ & S4 & G4 & _ & O4).
  set (w4 := step clk dur (Run i) w3) in *. rewrite S3 in S4, G4. cbn in S4, G4.
  assert (Hsi4 : scans w4 !! S i = Some AtEntry).
  { rewrite O4, O3 by lia. assumption. }
  destruct (step_Run_facts w4 (S i) AtEntry E4 Hsi4) as (E5 & _ & S5 & G5 & _ & O5).
  set (w5 := step clk dur (Run (S i)) w4) in *. cbn in S5, G5.
  destruct (step_Run_facts w5 (S i) AtLoopTest E5 G5) as (E6 & _ & S6 & G6 & _ & O6).
  set (w6 := step clk dur (Run (S i)) w5) in *. rewrite S5 in S6, G6. cbn in S6, G6.
  split; [assumption|]. split; [assumption|]. split; [|assumption].
  rewrite O6, O5 by lia. assumption.
Qed.

(** X11: while the flag is clear, a session that reaches its timeout is
    followed by a new session of the configured duration: the loop goes
    through [check] and its test and scans again. *)
Theorem timeout_starts_next_session (w : World) (i d : nat) :
  exited w = false -> stop w = false ->
  scans w !! i = Some (InScan (mkCtx d false)) ->
  let w' := exec clk dur (replicate d Tick ++ [Run i; Run i]) w in
  scans w' !! i = Some (InScan (mkCtx dur false))
  /\ stop w' = false /\ exited w' = false /\ beacons w' = beacons w.
Proof.
  intros Hex Hstop Hi. rewrite exec_app.
  destruct (ticks_facts w d Hex) as (E1 & B1 & S1 & _ & G1).
  set (w1 := exec clk dur (replicate d Tick) w) in *.
  specialize (G1 i). rewrite Hi in G1. cbn in G1.
  rewrite iter_tick_pc, Nat.sub_diag in G1.
  rewrite !exec_cons. cbn [exec foldl].
  destruct (step_Run_facts w1 i _ E1 G1) as (E2 & B2 & S2 & G2 & _ & _).
  set (w2 := step clk dur (Run i) w1) in *. cbn in S2, G2.
  destruct (step_Run_facts w2 i _ E2 G2) as (E3 & B3 & S3 & G3 & _ & _).
  set (w3 := step clk dur (Run i) w2) in *.
  rewrite S2, S1, Hstop in S3, G3. cbn in S3, G3.
  split; [assumption|]. split; [assumption|]. split; [assumption|]. congruence.
Qed.

(** X12: a signal cancels the context of a running session, which ends at
    once; [check] logs the cancellation and, the flag being clear, the loop
    opens a new session: a signal does not stop the scanning. *)
Theorem signal_cancels_session_only (w : World) (i d : nat) :
  exited w = false -> stop w = false ->
  scans w !! i = Some (InScan (mkCtx (S d) false)) ->
  scans (step clk dur Signal w) !! i = Some (InScan (mkCtx (S d) true))
  /\ scans (exec clk dur [Signal; Run i] w) !! i = Some AtLoopTest
  /\ (let w' := exec clk dur [Signal; Run i; Run i] w in
      scans w' !! i = Some (InScan (mkCtx dur false))
      /\ stop w' = false /\ exited w' = false).
Proof.
  intros Hex Hstop Hi.
  destruct (step_Signal_facts w Hex) as (E1 & _ & S1 & G1).
  set (w1 := step clk dur Signal w) in *.
  specialize (G1 i). rewrite Hi in G1. cbn in G1.
  split; [assumption|].
  rewrite !exec_cons. cbn [exec foldl]. fold w1.
  destruct (step_Run_facts w1 i _ E1 G1) as (E2 & _ & S2 & G2 & _ & _).
  set (w2 := step clk dur (Run i) w1) in *. cbn in S2, G2.
  split; [assumption|].
  destruct (step_Run_facts w2 i _ E2 G2) as (E3 & _ & S3 & G3 & _ & _).
  set (w3 := step clk dur (Run i) w2) in *.
  rewrite S2, S1, Hstop in S3, G3. cbn in S3, G3.
  split; [assumption|]. split; assumption.
Qed.

(** X13: a stop request followed by a start request before the running
    session has ended does not stop the old loop: the new goroutine clears
    the flag, the old loop finds it clear at its next test and goes on, and
    two loops scan from then on. *)
Theorem stop_then_start_keeps_old_loop (w : World) (i d : nat) :
  exited w = false -> stop w = false ->
  scans w !! i = Some (InScan (mkCtx d false)) ->
  let j := length (scans w) in
  let w' := exec clk dur ([StopReq; StartReq; Run j] ++ replicate d Tick
                          ++ [Run i; Run i; Run j]) w in
  scans w' !! i = Some (InScan (mkCtx dur false))
  /\ scans w' !! j = Some (InScan (mkCtx dur false))
  /\ stop w' = false /\ exited w' = false.
Proof.
  intros Hex Hstop Hi j.
  assert (Hij : i <> j).
  { apply lookup_lt_Some in Hi. unfold j. lia. }
  rewrite exec_app. rewrite !exec_cons. cbn [exec foldl].
  change (foldl (fun w e => step clk dur e w) ?x ?es) with (exec clk dur es x).
  destruct (step_StopReq_facts w Hex Hstop) as (E1 & _ & S1 & G1).
  set (w1 := step clk dur StopReq w) in *.
  destruct (step_StartReq_facts w1 E1 S1) as (E2 & _ & S2 & G2).
  set (w2 := step clk dur StartReq w1) in *.
  assert (Hj2 : scans w2 !! j = Some AtEntry).
  { rewrite G2, G1. apply list_lookup_middle. reflexivity. }
  assert (Hi2 : scans w2 !! i = Some (InScan (mkCtx d false))).
  { rewrite G2, G1. apply lookup_app_l_Some. assumption. }
  destruct (step_Run_facts w2 j _ E2 Hj2) as (E3 & _ & S3 & G3 & _ & O3).
  set (w3 := step clk dur (Run j) w2) in *. cbn in S3, G3.
  rewrite exec_app.
  destruct (ticks_facts w3 d E3) as (E4 & _ & S4 & _ & G4).
  set (w4 := exec clk dur (replicate d Tick) w3) in *.
  assert (Hi4 : scans w4 !! i = Some (InScan (mkCtx 0 false))).
  { rewrite G4, O3, Hi2 by assumption. cbn.
    rewrite iter_tick_pc, Nat.sub_diag. reflexivity. }
  assert (Hj4 : scans w4 !! j = Some AtLoopTest).
  { rewrite G4, G3. cbn. rewrite iter_tick_pc_AtLoopTest. reflexivity. }
  rewrite !exec_cons. cbn [exec foldl].
  destruct (step_Run_facts w4 i _ E4 Hi4) as (E5 & _ & S5 & G5 & _ & O5).
  set (w5 := step clk dur (Run i) w4) in *. cbn in S5, G5.
  destruct (step_Run_facts w5 i _ E5 G5) as (E6 & _ & S6 & G6 & _ & O6).
  set (w6 := step clk dur (Run i) w5) in *.
  rewrite S5, S4, S3 in S6, G6. cbn in S6, G6.
  assert (Hj6 : scans w6 !! j = Some AtLoopTest).
  { rewrite O6, O5 by congruence. assumption. }
  destruct (step_Run_facts w6 j _ E6 Hj6) as (E7 & _ & S7 & G7 & _ & O7).
  set (w7 := step clk dur (Run j) w6) in *.
  rewrite S6 in S7, G7. cbn in S7, G7.
  split; [rewrite O7 by assumption; assumption|].
  split; [assumption|]. split; assumption.
Qed.

Lemma exec_exited (es : list event) (w : World) :
  exited w = true -> exec clk dur es w = w.
Proof.
  intros Hex. induction es as [|e es IH]; [reflexivity|].
  rewrite exec_cons. unfold step at 1. rewrite Hex. assumption.
Qed.

(** X14: an error of the radio during a session, other than the timeout
    or the cancellation of the context, ends the process through the
    default case of [check]: from then on no event changes the state, and
    the beacons, the flag and the goroutines are as they were. *)
Theorem radio_error_is_fatal (w : World) (i : nat) (ctx : context)
    (es : list event) :
  exited w = false -> scans w !! i = Some (InScan ctx) -> ctx_Err ctx = None ->
  exec clk dur (RadioError i :: es) w
  = mkWorld (beacons w) (stop w) (ticks w) (scans w) true.
Proof.
  intros Hex Hi Herr. rewrite exec_cons.
  assert (Hstep : step clk dur (RadioError i) w
                  = mkWorld (beacons w) (stop w) (ticks w) (scans w) true).
  { unfold step. rewrite Hex, Hi. cbn [in_scan]. rewrite Herr. reflexivity. }
  rewrite Hstep. apply exec_exited. reflexivity.
Qed.

End ScanLoop.

Lemma start_launches_scan_loop_witness :
  let w := Beacons.exec (fun n => Z.of_nat n) 5
             [Beacons.StartReq; Beacons.Run 0; Beacons.Run 0] Beacons.init in
  Beacons.stop w = false
  /\ Beacons.scans w !! 0%nat = Some (Beacons.InScan (Beacons.mkCtx 5 false)).
Proof.
  destruct (start_launches_scan_loop (fun n => Z.of_nat n) 5 Beacons.init
              eq_refl eq_refl) as (_ & _ & H1 & _ & _ & H2 & _).
  split; assumption.
Defined.

Lemma double_start_runs_two_loops_witness :
  let w := Beacons.exec (fun n => Z.of_nat n) 5
             [Beacons.StartReq; Beacons.StartReq; Beacons.Run 0; Beacons.Run 0;
              Beacons.Run 1; Beacons.Run 1] Beacons.init in
  Beacons.scans w !! 0%nat = Some (Beacons.InScan (Beacons.mkCtx 5 false))
  /\ Beacons.scans w !! 1%nat = Some (Beacons.InScan (Beacons.mkCtx 5 false)).
Proof.
  destruct (double_start_runs_two_loops (fun n => Z.of_nat n) 5 Beacons.init
              eq_refl eq_refl) as (_ & _ & _ & H1 & H2).
  split; assumption.
Defined.

Lemma timeout_starts_next_session_witness :
  let w := Beacons.mkWorld [] false 0 [Beacons.InScan (Beacons.mkCtx 3 false)] false in
  Beacons.scans
    (Beacons.exec (fun n => Z.of_nat n) 5
       (replicate 3 Beacons.Tick ++ [Beacons.Run 0; Beacons.Run 0]) w) !! 0%nat
  = Some (Beacons.InScan (Beacons.mkCtx 5 false)).
Proof.
  intros w.
  exact (proj1 (timeout_starts_next_session (fun n => Z.of_nat n) 5 w 0 3
                  eq_refl eq_refl eq_refl)).
Defined.

Lemma signal_cancels_session_only_witness :
  let w := Beacons.mkWorld [] false 0 [Beacons.InScan (Beacons.mkCtx 3 false)] false in
  Beacons.scans
    (Beacons.exec (fun n => Z.of_nat n) 5 [Beacons.Signal; Beacons.Run 0] w) !! 0%nat
  = Some Beacons.AtLoopTest.
Proof.
  intros w.
  exact (proj1 (proj2 (signal_cancels_session_only (fun n => Z.of_nat n) 5 w 0 2
                         eq_refl eq_refl eq_refl))).
Defined.

Lemma stop_then_start_keeps_old_loop_witness :
  let w := Beacons.mkWorld [] false 0 [Beacons.InScan (Beacons.mkCtx 3 false)] false in
  let w' := Beacons.exec (fun n => Z.of_nat n) 5
              ([Beacons.StopReq; Beacons.StartReq; Beacons.Run 1]
               ++ replicate 3 Beacons.Tick
               ++ [Beacons.Run 0; Beacons.Run 0; Beacons.Run 1]) w in
  Beacons.scans w' !! 0%nat = Some (Beacons.InScan (Beacons.mkCtx 5 false))
  /\ Beacons.stop w' = false.
Proof.
  intros w.
  destruct (stop_then_start_keeps_old_loop (fun n => Z.of_nat n) 5 w 0 3
              eq_refl eq_refl eq_refl) as (H1 & _ & H2 & _).
  split; assumption.
Defined.

Lemma radio_error_is_fatal_witness :
  let w := Beacons.mkWorld [] false 0 [Beacons.InScan (Beacons.mkCtx 3 false)] false in
  Beacons.exec (fun n => Z.of_nat n) 5
    [Beacons.RadioError 0; Beacons.StartReq; Beacons.Tick] w
  = Beacons.mkWorld [] false 0 [Beacons.InScan (Beacons.mkCtx 3 false)] true.
Proof.
  intros w.
  exact (radio_error_is_fatal (fun n => Z.of_nat n) 5 w 0 (Beacons.mkCtx 3 false)
           [Beacons.StartReq; Beacons.Tick] eq_refl eq_refl eq_refl).
Defined.

(* ===================================================================== *)
(** ** Further properties of the device registry                          *)
(* ===================================================================== *)

Section DeviceRegistry.

Variable clk : clock.
Variable clean : string -> string.
Variable dur : nat.

(** X15: adScanHandler returns on every advertisement. It stores the
    sighting under the address of the advertisement and reads the clock
    once; the entries of the other addresses are untouched, the map grows
    by one entry for a new address and by none for a known one, and every
    entry stays filed under its own address. *)
Theorem adScanHandler_touches_one_address
    (a : ble.Adv.t) (devices : gmap string Devices.Device) (k : nat) :
  exists m,
    Devices.adScanHandler clk clean a devices k = Ok (m, S k)
    /\ m !! ble.Adv.Addr a = Some (sighting clean a (clk k))
    /\ (forall x, x <> ble.Adv.Addr a -> m !! x = devices !! x)
    /\ size m = (if decide (is_Some (devices !! ble.Adv.Addr a))
                 then size devices else S (size devices))
    /\ (map_Forall (fun key d => Devices.Address d = key) devices ->
        map_Forall (fun key d => Devices.Address d = key) m).
Proof.
  eexists. split; [apply adScanHandler_ok|].
  split; [apply lookup_insert_eq|].
  split; [intros x Hx; apply lookup_insert_ne; congruence|].
  split.
  - rewrite map_size_insert.
    destruct (devices !! ble.Adv.Addr a) eqn:E.
    + rewrite decide_True by eauto. reflexivity.
    + rewrite decide_False by (intros [? ?]; discriminate). reflexivity.
  - intros Hinv. apply map_Forall_insert_2; [reflexivity | assumption].
Qed.

Lemma step_Advert (w : Devices.World) (a : ble.Adv.t) :
  Devices.exited w = false ->
  existsb Beacons.in_scan (Devices.scans w) = true ->
  Devices.step clk clean dur (Devices.Advert a) w
  = Devices.mkWorld
      (<[ble.Adv.Addr a := sighting clean a (clk (Devices.ticks w))]> (Devices.devices w))
      (Devices.stop w) (S (Devices.ticks w)) (Devices.scans w) false.
Proof.
  intros Hex Hscan. unfold Devices.step.
  rewrite Hex, Hscan, adScanHandler_ok. reflexivity.
Qed.

Lemma later_address_absent (a0 : ble.Adv.t) (rest : list ble.Adv.t) :
  (forall j a', (0 < j)%nat -> (a0 :: rest) !! j = Some a' ->
                ble.Adv.Addr a' <> ble.Adv.Addr a0) ->
  ble.Adv.Addr a0 ∉ ble.Adv.Addr <$> rest.
Proof.
  intros Hlater Hin. apply list_elem_of_fmap in Hin as (a' & Heq & Hin).
  apply list_elem_of_lookup in Hin as (j & Hj).
  apply (Hlater (S j) a'); [lia | exact Hj | congruence].
Qed.

Lemma exec_adverts (advs : list ble.Adv.t) :
  forall w : Devices.World,
    Devices.exited w = false ->
    existsb Beacons.in_scan (Devices.scans w) = true ->
    let w' := Devices.exec clk clean dur (Devices.Advert <$> advs) w in
    Devices.exited w' = false /\ Devices.scans w' = Devices.scans w
    /\ Devices.stop w' = Devices.stop w
    /\ Devices.ticks w' = (Devices.ticks w + length advs)%nat
    /\ (forall x, x ∉ ble.Adv.Addr <$> advs ->
          Devices.devices w' !! x = Devices.devices w !! x)
    /\ (forall i a, advs !! i = Some a ->
          (forall j a', (i < j)%nat -> advs !! j = Some a' ->
                        ble.Adv.Addr a' <> ble.Adv.Addr a) ->
          Devices.devices w' !! ble.Adv.Addr a
          = Some (sighting clean a (clk (Devices.ticks w + i)%nat)))
    /\ dom (Devices.devices w')
       = dom (Devices.devices w) ∪ list_to_set (ble.Adv.Addr <$> advs).
Proof.
  induction advs as [|a0 rest IH]; intros w Hex Hscan.
  - cbn. rewrite Nat.add_0_r. split_and!; try done.
    symmetry. apply (right_id_L ∅ (∪)).
  - rewrite (fmap_cons Devices.Advert). cbn [Devices.exec foldl].
    change (foldl (fun w e => Devices.step clk clean dur e w) ?x ?es)
      with (Devices.exec clk clean dur es x).
    rewrite (step_Advert w a0 Hex Hscan).
    set (w1 := Devices.mkWorld _ _ _ _ _).
    destruct (IH w1 eq_refl Hscan) as (E & G & St & T & U & L & D).
    cbn [Devices.scans Devices.stop Devices.ticks Devices.devices w1] in *.
    split; [assumption|]. split; [assumption|]. split; [assumption|].
    split; [rewrite T; cbn; lia|]. split; [|split].
    + intros x Hx. rewrite fmap_cons in Hx. apply not_elem_of_cons in Hx as [Hne Hx].
      rewrite U by assumption. apply lookup_insert_ne. congruence.
    + intros [|i] a Hi Hlater.
      * injection Hi as ->. rewrite Nat.add_0_r.
        rewrite U by (apply later_address_absent; assumption).
        apply lookup_insert_eq.
      * replace (Devices.ticks w + S i)%nat with (S (Devices.ticks w) + i)%nat by lia.
        apply L; [exact Hi|].
        intros j a' Hj Ha'. apply (Hlater (S j) a'); [lia | exact Ha'].
    + rewrite D, dom_insert_L, fmap_cons. cbn [list_to_set].
      rewrite (comm_L (∪) {[ble.Adv.Addr a0]}), <- (assoc_L (∪)). reflexivity.
Qed.

(** X16: after the advertisements of an open session have been handled one
    after the other, the registry holds for every address the sighting of
    the last advertisement that came from it, stamped with the clock
    reading of its handling; the addresses it knows are the ones it knew
    and the ones just seen, and the entries of the addresses not seen are
    untouched. *)
Theorem registry_holds_latest_sighting (advs : list ble.Adv.t) (w : Devices.World) :
  Devices.exited w = false ->
  existsb Beacons.in_scan (Devices.scans w) = true ->
  let w' := Devices.exec clk clean dur (Devices.Advert <$> advs) w in
  Devices.ticks w' = (Devices.ticks w + length advs)%nat
  /\ (forall i a, advs !! i = Some a ->
        (forall j a', (i < j)%nat -> advs !! j = Some a' ->
                      ble.Adv.Addr a' <> ble.Adv.Addr a) ->
        Devices.devices w' !! ble.Adv.Addr a
        = Some (sighting clean a (clk (Devices.ticks w + i)%nat)))
  /\ (forall x, x ∉ ble.Adv.Addr <$> advs ->
        Devices.devices w' !! x = Devices.devices w !! x)
  /\ dom (Devices.devices w')
     = dom (Devices.devices w) ∪ list_to_set (ble.Adv.Addr <$> advs).
Proof.
  intros Hex Hscan.
  destruct (exec_adverts advs w Hex Hscan) as (_ & _ & _ & T & U & L & D).
  repeat split; assumption.
Qed.



End DeviceRegistry.

Lemma registry_holds_latest_sighting_witness :
  let clk : clock := fun n => Z.of_nat n in
  let a1 := ble.Adv.mk "c4:7c:8d:6a:3e:01" "tag" (-60) (of_bytes []) []
              (of_bytes [x02; x01]) (of_bytes []) in
  let a2 := ble.Adv.mk "c4:7c:8d:6a:3e:01" "tag" (-48) (of_bytes []) []
              (of_bytes [x02; x01]) (of_bytes []) in
  let w := Devices.mkWorld ∅ false 0 [Beacons.InScan (Beacons.mkCtx 5 false)] false in
  Devices.devices
    (Devices.exec clk id 5 [Devices.Advert a1; Devices.Advert a2] w)
    !! "c4:7c:8d:6a:3e:01"%string
  = Some (sighting id a2 1).
Proof.
  intros clk a1 a2 w.
  destruct (registry_holds_latest_sighting clk id 5 [a1; a2] w eq_refl eq_refl)
    as (_ & H & _).
  apply (H 1%nat a2 eq_refl).
  intros [|[|[|j]]] a' Hj Ha'; try lia; discriminate.
Defined.


(* ===================================================================== *)
(** ** Further properties of the display and of the device listing        *)
(* ===================================================================== *)

Section Display.
Import Devices.

Lemma rune_width_ascii (c : ascii) (rest : string) :
  is_ascii c = true -> rune_width (String c rest) = 1%nat.
Proof. intros H. unfold rune_width. unfold is_ascii in H. rewrite H. reflexivity. Qed.

Lemma spaced_parity (n : nat) :
  forall s, (String.length s <= n)%nat ->
    (is_Some (spaced s) <-> Nat.even (String.length s) = true).
Proof.
  induction n as [|n IH]; intros s Hlen.
  - destruct s; [|simpl in Hlen; lia]. simpl. split; eauto.
  - destruct s as [|a [|b rest]].
    + simpl. split; eauto.
    + simpl. split; [intros [? ?]; discriminate | discriminate].
    + cbn [spaced String.length Nat.even]. rewrite <- IH by (simpl in Hlen; lia).
      destruct (spaced rest); split; eauto; intros [? ?]; discriminate.
Qed.

(** The loop of formatHex over an ASCII string [s], which the string
    [instr] holds after an even number of bytes [pre]. *)
Lemma formatHex_range_ascii (n : nat) :
  forall s, (String.length s <= n)%nat -> all_chars is_ascii s = true ->
  forall (pre out : string) (m : Z),
    Z.of_nat (String.length pre) = 2 * m ->
    formatHex_range (pre +:+ s) (rune_starts s (2 * m) 0) out
    = match spaced s with
      | Some r => Ok (out +:+ r)
      | None => Panic SliceBoundsOutOfRange
      end.
Proof.
  induction n as [|n IH]; intros s Hlen Hascii pre out m Hpre.
  - destruct s; [|simpl in Hlen; lia]. simpl. rewrite app_empty_r. reflexivity.
  - assert (E0 : (Z.rem (2 * m) 2 =? 0) = true).
    { apply Z.eqb_eq. rewrite Z.mul_comm. apply Z.rem_mul. lia. }
    assert (E1 : (Z.rem (2 * m + 1) 2 =? 0) = false).
    { apply Z.eqb_neq. rewrite Z.rem_mod_nonneg by lia.
      rewrite Z.add_comm, Z.mul_comm, Z.mod_add by lia. discriminate. }
    destruct s as [|a [|b rest]].
    + simpl. rewrite app_empty_r. reflexivity.
    + cbn [rune_starts spaced formatHex_range]. rewrite E0. unfold substr.
      destruct (decide _) as [Hd|_]; [|reflexivity].
      rewrite app_length_string in Hd. simpl in Hd. lia.
    + cbn [all_chars] in Hascii.
      apply andb_true_iff in Hascii as [Ha Hascii].
      apply andb_true_iff in Hascii as [Hb Hascii].
      cbn [rune_starts spaced].
      rewrite (rune_width_ascii _ _ Ha), (rune_width_ascii _ _ Hb).
      cbn [Nat.sub rune_starts formatHex_range]. rewrite E0, E1.
      unfold substr. destruct (decide _) as [_|Hn].
      * rewrite <- Hpre, Nat2Z.id.
        replace (Z.to_nat (Z.of_nat (String.length pre) + 2
                           - Z.of_nat (String.length pre))) with 2%nat by lia.
        rewrite substring_after. cbn [mbind outcome_bind].
        replace (pre +:+ String a (String b rest))
          with ((pre +:+ String a (String b EmptyString)) +:+ rest)
          by (rewrite app_assoc_string; reflexivity).
        replace (Z.of_nat (String.length pre) + 1 + 1) with (2 * (m + 1)) by lia.
        rewrite IH; [| simpl in Hlen; lia | assumption
                     | rewrite app_length_string; simpl; lia].
        destruct (spaced rest); [|reflexivity].
        f_equal. rewrite !app_assoc_string. reflexivity.
      * exfalso. apply Hn. rewrite app_length_string. simpl. lia.
Qed.

(** X18: on an ASCII string formatHex returns exactly when the length is
    even, with the pairs of characters each followed by a space; on an
    ASCII string of odd length it panics, when it slices the last
    character with the one that is not there. *)
Theorem formatHex_needs_even_length (s : string) :
  all_chars is_ascii s = true ->
  formatHex s = match spaced s with
                | Some r => Ok r
                | None => Panic SliceBoundsOutOfRange
                end
  /\ (returns (formatHex s) <-> Nat.even (String.length s) = true).
Proof.
  intros Hascii.
  assert (H : formatHex s = match spaced s with
                            | Some r => Ok r
                            | None => Panic SliceBoundsOutOfRange
                            end).
  { unfold formatHex, range_string.
    exact (formatHex_range_ascii (String.length s) s (le_n _) Hascii
             EmptyString EmptyString 0 eq_refl). }
  split; [assumption|].
  rewrite H, <- (spaced_parity (String.length s) s (le_n _)). unfold returns.
  destruct (spaced s); split; eauto; intros [? ?]; discriminate.
Qed.

Lemma formatHex_needs_even_length_witness :
  formatHex "4c000215" = Ok "4c 00 02 15 "%string
  /\ formatHex "4c0" = Panic SliceBoundsOutOfRange.
Proof.
  destruct (formatHex_needs_even_length "4c000215" eq_refl) as [H1 _].
  destruct (formatHex_needs_even_length "4c0" eq_refl) as [H2 _].
  split; [exact H1 | exact H2].
Defined.

Lemma strip_pair (b : byte) (rest : string) :
  strip_spaces (EncodeToString [b] +:+ " " +:+ rest)
  = EncodeToString [b] +:+ strip_spaces rest.
Proof. destruct b; reflexivity. Qed.

Lemma strip_spaced_pairs (raw : list byte) :
  strip_spaces (spaced_pairs raw) = EncodeToString raw.
Proof.
  induction raw as [|b raw IH]; [reflexivity|].
  cbn [spaced_pairs]. rewrite strip_pair, IH. reflexivity.
Qed.

Lemma to_N_fmap_inj (l1 l2 : list byte) :
  Byte.to_N <$> l1 = Byte.to_N <$> l2 -> l1 = l2.
Proof.
  revert l2. induction l1 as [|x l1 IH]; intros [|y l2] H; try discriminate.
  - reflexivity.
  - rewrite !fmap_cons in H. injection H as Hxy Hl. f_equal; [|apply IH; assumption].
    pose proof (Byte.of_to_N x) as Hx. rewrite Hxy, Byte.of_to_N in Hx.
    congruence.
Qed.

(** X19: the display of raw bytes loses nothing: without its spaces the
    string that the device record stores is the hex encoding of the bytes
    and denotes them, so that two payloads displayed alike are equal. *)
Theorem display_determines_bytes (raw : list byte) :
  exists shown,
    formatHex (EncodeToString raw) = Ok shown
    /\ strip_spaces shown = EncodeToString raw
    /\ hex_bytes (strip_spaces shown) = Some (Byte.to_N <$> raw)
    /\ (forall raw', formatHex (EncodeToString raw') = Ok shown -> raw' = raw).
Proof.
  exists (spaced_pairs raw). split; [apply formatHex_encoded|].
  split; [apply strip_spaced_pairs|].
  split; [rewrite strip_spaced_pairs; apply EncodeToString_denotes|].
  intros raw' H. rewrite formatHex_encoded in H. injection H as H.
  apply to_N_fmap_inj.
  pose proof (EncodeToString_denotes raw') as H'.
  rewrite <- (strip_spaced_pairs raw'), H, strip_spaced_pairs in H'.
  rewrite EncodeToString_denotes in H'. congruence.
Qed.

Variable clk : clock.
Variable seconds : Time -> Time -> string.



End Display.


(* ===================================================================== *)
(** ** The life of a scan in the device program                           *)
(* ===================================================================== *)

Section DeviceScan.

Variable clk : clock.
Variable clean : string -> string.
Variable dur : nat.

Lemma dexec_cons (e : Devices.event) (es : list Devices.event) (w : Devices.World) :
  Devices.exec clk clean dur (e :: es) w = Devices.exec clk clean dur es (Devices.step clk clean dur e w).
Proof. reflexivity. Qed.

Lemma dexec_app (es1 es2 : list Devices.event) (w : Devices.World) :
  Devices.exec clk clean dur (es1 ++ es2) w = Devices.exec clk clean dur es2 (Devices.exec clk clean dur es1 w).
Proof. unfold Devices.exec. apply foldl_app. Qed.

Lemma dstep_Run_facts (w : Devices.World) (i : nat) (p : Beacons.pc) :
  Devices.exited w = false -> Devices.scans w !! i = Some p ->
  let w' := Devices.step clk clean dur (Devices.Run i) w in
  Devices.exited w' = false /\ Devices.devices w' = Devices.devices w
  /\ Devices.ticks w' = Devices.ticks w
  /\ Devices.stop w' = (Devices.scan_step dur p (Devices.stop w)).2
  /\ Devices.scans w' !! i = Some (Devices.scan_step dur p (Devices.stop w)).1.
Proof.
  intros Hex Hp. unfold Devices.step. rewrite Hex, Hp.
  destruct (Devices.scan_step dur p (Devices.stop w)) as [p' s'].
  cbn. repeat split.
  apply list_lookup_insert_eq. eapply lookup_lt_Some. eassumption.
Qed.

Lemma dticks_facts (n : nat) :
  forall w, Devices.exited w = false ->
    let w' := Devices.exec clk clean dur (replicate n Devices.Tick) w in
    Devices.exited w' = false /\ Devices.devices w' = Devices.devices w
    /\ Devices.stop w' = Devices.stop w
    /\ (forall j, Devices.scans w' !! j
                  = Nat.iter n Beacons.tick_pc <$> Devices.scans w !! j).
Proof.
  induction n as [|n IH]; intros w Hex.
  - cbn. repeat split; try assumption.
    intros j. destruct (Devices.scans w !! j); reflexivity.
  - cbn [replicate]. rewrite dexec_cons.
    assert (H1 : Devices.step clk clean dur Devices.Tick w
                 = Devices.mkWorld (Devices.devices w) (Devices.stop w)
                     (Devices.ticks w) (Beacons.tick_pc <$> Devices.scans w) false).
    { unfold Devices.step. rewrite Hex. reflexivity. }
    rewrite H1. set (w1 := Devices.mkWorld _ _ _ _ _).
    destruct (IH w1 eq_refl) as (E & D & St & G). unfold w1 in *.
    cbn [Devices.devices Devices.stop Devices.scans] in *.
    split; [assumption|]. split; [assumption|]. split; [assumption|].
    intros j. rewrite G, list_lookup_fmap.
    destruct (Devices.scans w !! j) as [p|]; [|reflexivity].
    cbn [fmap option_fmap option_map]. f_equal. symmetry. apply Nat.iter_succ_r.
Qed.

Lemma existsb_in_scan (l : list Beacons.pc) (i : nat) (p : Beacons.pc) :
  l !! i = Some p -> Beacons.in_scan p = true -> existsb Beacons.in_scan l = true.
Proof.
  intros Hi Hp. apply existsb_exists. exists p. split; [|assumption].
  apply list_elem_of_In. eapply list_elem_of_lookup_2. eassumption.
Qed.

(** X21: the life of a scan in the device program. A start request in the
    stopped state is accepted without a status; once the goroutine has
    opened its session a second start request gets 409. A stop request is
    then accepted, but advertisements are still recorded while the session
    lasts; when its timeout has elapsed the loop returns with the flag set,
    and a further stop request gets 409. *)
Theorem device_scan_lifecycle (w : Devices.World) (a : ble.Adv.t) :
  Devices.exited w = false -> Devices.stop w = true -> (0 < dur)%nat ->
  let i := length (Devices.scans w) in
  let w1 := Devices.exec clk clean dur [Devices.StartReq; Devices.Run i; Devices.Run i] w in
  let w2 := Devices.step clk clean dur Devices.StopReq w1 in
  let w3 := Devices.exec clk clean dur (replicate dur Devices.Tick
                   ++ [Devices.Run i; Devices.Run i; Devices.Run i]) w2 in
  (Devices.startScan w).1 = None
  /\ Devices.stop w1 = false
  /\ Devices.scans w1 !! i = Some (Beacons.InScan (Beacons.mkCtx dur false))
  /\ Devices.startScan w1 = (Some 409, w1)
  /\ (Devices.stopScan w1).1 = None /\ Devices.stop w2 = true
  /\ Devices.devices (Devices.step clk clean dur (Devices.Advert a) w2) !! ble.Adv.Addr a
     = Some (sighting clean a (clk (Devices.ticks w)))
  /\ Devices.scans w3 !! i = Some Beacons.Returned
  /\ Devices.stop w3 = true /\ Devices.devices w3 = Devices.devices w
  /\ Devices.stopScan w3 = (Some 409, w3).
Proof.
  intros Hex Hstop Hdur i w1 w2 w3.
  assert (H0 : Devices.step clk clean dur Devices.StartReq w
               = Devices.mkWorld (Devices.devices w) true (Devices.ticks w)
                   (Devices.scans w ++ [Beacons.AtEntry]) false).
  { unfold Devices.step, Devices.startScan. rewrite Hex, Hstop. reflexivity. }
  assert (Hi0 : Devices.scans (Devices.step clk clean dur Devices.StartReq w) !! i = Some Beacons.AtEntry).
  { rewrite H0. apply list_lookup_middle. reflexivity. }
  destruct (dstep_Run_facts _ i _ (eq_trans (f_equal Devices.exited H0) eq_refl) Hi0)
    as (Ea & Da & Ta & Sa & Ga).
  cbn in Sa, Ga.
  destruct (dstep_Run_facts _ i _ Ea Ga) as (Eb & Db & Tb & Sb & Gb).
  rewrite Sa in Sb, Gb. cbn in Sb, Gb.
  change (Devices.step clk clean dur (Devices.Run i) (Devices.step clk clean dur (Devices.Run i) (Devices.step clk clean dur Devices.StartReq w)))
    with w1 in *.
  assert (D1 : Devices.devices w1 = Devices.devices w).
  { rewrite Db, Da, H0. reflexivity. }
  assert (T1 : Devices.ticks w1 = Devices.ticks w).
  { rewrite Tb, Ta, H0. reflexivity. }
  assert (H2 : w2 = Devices.mkWorld (Devices.devices w1) true (Devices.ticks w1)
                      (Devices.scans w1) false).
  { unfold w2, Devices.step, Devices.stopScan. rewrite Eb, Sb. reflexivity. }
  split; [unfold Devices.startScan; rewrite Hstop; reflexivity|].
  split; [assumption|]. split; [assumption|].
  split; [unfold Devices.startScan; rewrite Sb; reflexivity|].
  split; [unfold Devices.stopScan; rewrite Sb; reflexivity|].
  split; [rewrite H2; reflexivity|].
  split.
  { rewrite (step_Advert clk clean dur w2 a).
    - cbn [Devices.devices]. rewrite H2. cbn [Devices.ticks]. rewrite T1.
      apply lookup_insert_eq.
    - rewrite H2. reflexivity.
    - rewrite H2. cbn [Devices.scans].
      apply (existsb_in_scan _ i _ Gb). cbn. unfold Beacons.ctx_Err. cbn.
      destruct dur; [lia | reflexivity]. }
  unfold w3. rewrite dexec_app.
  destruct (dticks_facts dur w2) as (Ec & Dc & Sc & Gc); [rewrite H2; reflexivity|].
  specialize (Gc i). rewrite H2 in Gc at 2. cbn [Devices.scans] in Gc.
  rewrite Gb in Gc. cbn in Gc. rewrite iter_tick_pc, Nat.sub_diag in Gc.
  rewrite !dexec_cons. cbn [Devices.exec foldl].
  destruct (dstep_Run_facts _ i _ Ec Gc) as (Ed & Dd & _ & Sd & Gd).
  cbn in Sd, Gd.
  destruct (dstep_Run_facts _ i _ Ed Gd) as (Ee & De & _ & Se & Ge).
  rewrite Sd, Sc in Se, Ge. rewrite H2 in Se at 1. rewrite H2 in Ge at 2.
  cbn in Se, Ge.
  destruct (dstep_Run_facts _ i _ Ee Ge) as (Ef & Df & _ & Sf & Gf).
  cbn in Sf, Gf.
  split; [assumption|]. split; [assumption|].
  split; [rewrite Df, De, Dd, Dc, H2; cbn; assumption|].
  unfold Devices.stopScan. rewrite Sf. reflexivity.
Qed.

End DeviceScan.

Lemma device_scan_lifecycle_witness :
  let a := ble.Adv.mk "c4:7c:8d:6a:3e:01" "tag" (-60) (of_bytes []) []
             (of_bytes [x02; x01]) (of_bytes []) in
  let w1 := Devices.exec (fun n => Z.of_nat n) id 5
              [Devices.StartReq; Devices.Run 0; Devices.Run 0] Devices.init in
  Devices.stop w1 = false /\ Devices.startScan w1 = (Some 409, w1).
Proof.
  intros a.
  destruct (device_scan_lifecycle (fun n => Z.of_nat n) id 5 Devices.init a
              eq_refl eq_refl) as (_ & H1 & _ & H2 & _).
  - lia.
  - split; assumption.
Defined.
